(** * OnePieceSimulation: the two navigators, embedded and verified

    The development follows the Python sources [mode1.py], [mode2.py] and
    [heap_node.py].

    - Python integers ([guardians], adventurer budgets, team counts) are [Z].
    - Python numbers that may be floats ([gold], ratio keys, o-scores) are
      exact rationals [Q]; a true division [a / b] raises
      [ZeroDivisionError] when [b] is zero, as in Python.  Rounding of
      binary floating point is not modelled.
    - [Land] objects are shared and mutated in place: they live in a store
      indexed by locations, and lists, containers and heap nodes hold
      locations.
    - Methods are computations in a state-and-exception monad.  A raised
      exception keeps the state reached so far, as it does in Python. *)

From Stdlib Require Import String.
From Stdlib Require Import ZArith QArith Qminmax List.
From Stdlib Require Import Permutation Sorted Lia Lqa.
Import ListNotations.

(** ** Exceptions and the method monad *)

Inductive exn : Type :=
| ZeroDivisionError   (* a true division by zero *)
| IndexError          (* list index out of range; pop from an empty queue *)
| KeyError            (* container delete on an absent key *)
| TypeError           (* len(None) *)
| AttributeError.     (* method call on None *)

Inductive outcome (A : Type) : Type :=
| Ok (a : A)
| Raise (e : exn).

Arguments Ok {A} a.
Arguments Raise {A} e.

Definition M (S A : Type) : Type := S -> outcome A * S.

Definition ret {S A} (a : A) : M S A := fun s => (Ok a, s).

Definition raise {S A} (e : exn) : M S A := fun s => (Raise e, s).

Definition bind {S A B} (c : M S A) (k : A -> M S B) : M S B :=
  fun s =>
    match c s with
    | (Ok a, s') => k a s'
    | (Raise e, s') => (Raise e, s')
    end.

Definition gets {S A} (f : S -> A) : M S A := fun s => (Ok (f s), s).

Definition modify {S} (f : S -> S) : M S unit := fun s => (Ok tt, f s).

(** [try: c except e: h] *)
Definition try_except {S A} (c : M S A) (e : exn) (h : M S A) : M S A :=
  fun s =>
    match c s with
    | (Ok a, s') => (Ok a, s')
    | (Raise e', s') =>
        if match e, e' with
           | ZeroDivisionError, ZeroDivisionError
           | IndexError, IndexError
           | KeyError, KeyError
           | TypeError, TypeError
           | AttributeError, AttributeError => true
           | _, _ => false
           end
        then h s' else (Raise e', s')
    end.

Declare Scope monad_scope.
Delimit Scope monad_scope with monad.
Notation "x <- c1 ;; c2" := (bind c1 (fun x => c2))
  (at level 61, c1 at next level, right associativity) : monad_scope.
Notation "c1 ;; c2" := (bind c1 (fun _ => c2))
  (at level 61, right associativity) : monad_scope.
Open Scope monad_scope.

(** [for x in l: body x], threading an accumulator. *)
Fixpoint for_each {S A B} (l : list A) (acc : B) (body : B -> A -> M S B)
  : M S B :=
  match l with
  | [] => ret acc
  | x :: l' => acc' <- body acc x ;; for_each l' acc' body
  end.

(** ** Python arithmetic *)

(** True division [a / b]. *)
Definition pydiv {S} (a b : Q) : M S Q :=
  if Qeq_bool b 0 then raise ZeroDivisionError else ret (a / b)%Q.

(** ** Land sites and the object store *)

(** Modelled from the spec: the site record of [landsites.py], which is not
    part of the sources at hand: an identity, a reward and a guard cost,
    the last two mutable. *)
Record Land : Type := mkLand {
  name : string;
  gold : Q;
  guardians : Z
}.

Definition loc : Type := nat.

Definition store : Type := loc -> Land.

Definition upd (st : store) (l : loc) (v : Land) : store :=
  fun l' => if Nat.eqb l' l then v else st l'.

Definition set_guardians (v : Land) (g : Z) : Land :=
  mkLand (name v) (gold v) g.

Definition set_gold (v : Land) (r : Q) : Land :=
  mkLand (name v) r (guardians v).

(** ** Python built-ins *)

(** [range(n)] *)
Definition range (n : Z) : list Z :=
  map Z.of_nat (seq 0 (Z.to_nat n)).

(** [range(start, stop, step)]; Python refuses [step = 0], which no caller
    here passes. *)
Definition range3 (start stop step : Z) : list Z :=
  let n :=
    if (0 <? step)%Z then ((stop - start + step - 1) / step)%Z
    else if (step <? 0)%Z then ((start - stop - step - 1) / (- step))%Z
    else 0%Z in
  map (fun i => (start + Z.of_nat i * step)%Z) (seq 0 (Z.to_nat n)).

(** [l[i]], with Python's negative indices. *)
Definition getitem {S A} (l : list A) (i : Z) : M S A :=
  let len := Z.of_nat (length l) in
  let j := if (i <? 0)%Z then (i + len)%Z else i in
  if (j <? 0)%Z then raise IndexError
  else match nth_error l (Z.to_nat j) with
       | Some x => ret x
       | None => raise IndexError
       end.

(** [a > b] on numbers. *)
Definition Qgtb (a b : Q) : bool :=
  match (a ?= b)%Q with Gt => true | _ => false end.

(** [a < b] on numbers. *)
Definition Qltb (a b : Q) : bool :=
  match (a ?= b)%Q with Lt => true | _ => false end.

(** [sum] of a list of integers. *)
Definition sumZ (l : list Z) : Z := fold_right Z.add 0%Z l.

(** * Mode 1: the ratio-ordered greedy scan ([mode1.py]) *)

Module Mode1.

(** Modelled from the spec: the ordered keyed container of
    [data_structures/bst.py], which is not part of the sources at hand.
    Its contract is that of a finite map from numeric keys to values with
    insert-or-replace by key, delete by key failing on an absent key, and
    iteration in ascending key order.  It is represented by its entries in
    iteration order; balancing is outside the contract. *)
Definition BinarySearchTree : Type := list (Q * loc).

(** [bst[key] = item] *)
Fixpoint bst_setitem (key : Q) (item : loc) (t : BinarySearchTree)
  : BinarySearchTree :=
  match t with
  | [] => [(key, item)]
  | (k, v) :: t' =>
      match (key ?= k)%Q with
      | Lt => (key, item) :: (k, v) :: t'
      | Eq => (key, item) :: t'
      | Gt => (k, v) :: bst_setitem key item t'
      end
  end.

(** [del bst[key]]; [None] is the not-found condition. *)
Fixpoint bst_delitem (key : Q) (t : BinarySearchTree)
  : option BinarySearchTree :=
  match t with
  | [] => None
  | (k, v) :: t' =>
      if Qeq_bool key k then Some t'
      else option_map (cons (k, v)) (bst_delitem key t')
  end.

(** [bst[key]]; [None] is the not-found condition. *)
Fixpoint bst_getitem (key : Q) (t : BinarySearchTree) : option loc :=
  match t with
  | [] => None
  | (k, v) :: t' => if Qeq_bool key k then Some v else bst_getitem key t'
  end.

(** [iter(bst)]: the nodes in ascending key order. *)
Definition bst_iter (t : BinarySearchTree) : list (Q * loc) := t.

(** The container's representation invariant: keys strictly ascending. *)
Definition bst_ok (t : BinarySearchTree) : Prop :=
  StronglySorted (fun a b => (fst a < fst b)%Q) t.

(** The navigator object together with the store of the [Land] objects it
    refers to. *)
Record State : Type := mkState {
  lands : store;
  sites : BinarySearchTree;
  total_adventurers : Z
}.

Definition get_guardians (land : loc) : M State Z :=
  gets (fun s => guardians (lands s land)).

Definition get_gold (land : loc) : M State Q :=
  gets (fun s => gold (lands s land)).

(** [land.gold = r] *)
Definition assign_gold (land : loc) (r : Q) : M State unit :=
  modify (fun s =>
    mkState (upd (lands s) land (set_gold (lands s land) r))
            (sites s) (total_adventurers s)).

(** [land.guardians = g] *)
Definition assign_guardians (land : loc) (g : Z) : M State unit :=
  modify (fun s =>
    mkState (upd (lands s) land (set_guardians (lands s land) g))
            (sites s) (total_adventurers s)).

(** [self.total_adventurers = n] *)
Definition assign_total_adventurers (n : Z) : M State unit :=
  modify (fun s => mkState (lands s) (sites s) n).

(** [self.sites = t] *)
Definition assign_sites (t : BinarySearchTree) : M State unit :=
  modify (fun s => mkState (lands s) t (total_adventurers s)).

(** The key expression [x.get_guardians() / x.get_gold()]. *)
Definition ratio (land : loc) : M State Q :=
  g <- get_guardians land ;;
  r <- get_gold land ;;
  pydiv (inject_Z g) r.

(** The body of the [while] loop of [select_sites], by recursion on what
    the iterator has left.  It returns the result list together with the
    final value of [remaining_adventurers]. *)
Fixpoint select_loop (nodes : list (Q * loc)) (remaining_adventurers : Z)
    (res_tuples : list (loc * Z)) : M State (list (loc * Z) * Z) :=
  if (remaining_adventurers >? 0)%Z then
    match nodes with
    | [] => ret (res_tuples, remaining_adventurers)   (* StopIteration *)
    | (_, item) :: rest =>
        g <- get_guardians item ;;
        let minimum_adventurers_required := Z.min remaining_adventurers g in
        select_loop rest
          (remaining_adventurers - minimum_adventurers_required)%Z
          (res_tuples ++ [(item, minimum_adventurers_required)])
    end
  else ret (res_tuples, remaining_adventurers).

Definition select_sites_aux : M State (list (loc * Z) * Z) :=
  remaining_adventurers <- gets total_adventurers ;;
  t <- gets sites ;;
  select_loop (bst_iter t) remaining_adventurers [].

Definition select_sites : M State (list (loc * Z)) :=
  r <- select_sites_aux ;;
  ret (fst r).

(** The reward of one visit, [min(adv * gold / guardians, gold)]. *)
Definition visit_reward (land : loc) (adv : Z) : M State Q :=
  r <- get_gold land ;;
  g <- get_guardians land ;;
  q <- pydiv (inject_Z adv * r) (inject_Z g) ;;
  r' <- get_gold land ;;
  ret (Qmin q r').

(** The inner loop of [select_sites_from_adventure_numbers]: the reward of
    an optimal path. *)
Definition path_reward (optimal_path : list (loc * Z)) : M State Q :=
  for_each optimal_path 0%Q
    (fun total_reward visit =>
       reward <- visit_reward (fst visit) (snd visit) ;;
       ret (total_reward + reward)%Q).

(** The body of its outer loop: one probed budget. *)
Definition probe (res_rewards : list Q) (current_advs : Z) : M State (list Q) :=
  assign_total_adventurers current_advs ;;
  optimal_path <- select_sites ;;
  total_reward <- path_reward optimal_path ;;
  ret (res_rewards ++ [total_reward]).

Definition select_sites_from_adventure_numbers (adventure_numbers : list Z)
  : M State (list Q) :=
  temp <- gets total_adventurers ;;
  res_rewards <- for_each adventure_numbers [] probe ;;
  assign_total_adventurers temp ;;
  ret res_rewards.

(** [del self.sites[key]] *)
Definition sites_delitem (key : Q) : M State unit :=
  t <- gets sites ;;
  match bst_delitem key t with
  | Some t' => assign_sites t'
  | None => raise KeyError
  end.

(** [self.sites[key] = land] *)
Definition sites_setitem (key : Q) (land : loc) : M State unit :=
  t <- gets sites ;;
  assign_sites (bst_setitem key land t).

Definition update_site (land : loc) (new_reward : Q) (new_guardians : Z)
  : M State unit :=
  key <- ratio land ;;
  sites_delitem key ;;
  assign_gold land new_reward ;;
  assign_guardians land new_guardians ;;
  key <- ratio land ;;
  sites_setitem key land.

(** [_append_to_bst], on the local tree under construction. *)
Definition _append_to_bst (bst : BinarySearchTree) (l : list loc)
    (start stop incrementer : Z) : M State BinarySearchTree :=
  for_each (range3 start stop incrementer) bst
    (fun bst i =>
       item <- getitem l i ;;
       key <- ratio item ;;
       ret (bst_setitem key item bst)).

Definition _create_bst (l : list loc) : M State BinarySearchTree :=
  let res_bst : BinarySearchTree := [] in
  let median_index := (Z.of_nat (length l) / 2)%Z in
  item <- getitem l median_index ;;
  key <- ratio item ;;
  let res_bst := bst_setitem key item res_bst in
  res_bst <- _append_to_bst res_bst l (median_index - 1) (-1) (-1) ;;
  res_bst <- _append_to_bst res_bst l (median_index + 1)
               (Z.of_nat (length l)) 1 ;;
  ret res_bst.

(** Modelled from the spec: the sort routine of [algorithms/mergesort.py],
    which is not part of the sources at hand; it returns its input ordered
    ascending by the key.  Keys are computed first, so that a failing key
    computation fails the sort. *)
Fixpoint insert_by_key (x : Q * loc) (l : list (Q * loc)) : list (Q * loc) :=
  match l with
  | [] => [x]
  | y :: l' =>
      if Qle_bool (fst x) (fst y) then x :: y :: l'
      else y :: insert_by_key x l'
  end.

Definition mergesort (l : list loc) (key : loc -> M State Q)
  : M State (list loc) :=
  keyed <- for_each l []
             (fun acc x => k <- key x ;; ret (acc ++ [(k, x)])) ;;
  ret (map snd (fold_right insert_by_key [] keyed)).

(** [Mode1Navigator(sites, adventurers)] *)
Definition init (sites : list loc) (adventurers : Z) : M State unit :=
  sorted_sites <- mergesort sites ratio ;;
  t <- _create_bst sorted_sites ;;
  assign_sites t ;;
  assign_total_adventurers adventurers.

(** *** The claims' words, for comparison with the code *)

(** The sites of a result list, and what was sent to each. *)
Definition visited (res : list (loc * Z)) : list loc := map fst res.
Definition sent (res : list (loc * Z)) : list Z := map snd res.

(** What is left of a starting budget before the [i]-th visit. *)
Definition remaining_before (budget : Z) (res : list (loc * Z)) (i : nat) : Z :=
  (budget - sumZ (firstn i (sent res)))%Z.

(** A state with another budget. *)
Definition with_budget (s : State) (n : Z) : State :=
  mkState (lands s) (sites s) n.

(** The ratio key of a site as the store has it, when it is defined. *)
Definition ratio_of (v : Land) : Q := (inject_Z (guardians v) / gold v)%Q.

(** The reward the code computes for the visit of one pair. *)
Definition reward_of (st : store) (visit : loc * Z) : Q :=
  Qmin (inject_Z (snd visit) * gold (st (fst visit))
        / inject_Z (guardians (st (fst visit))))
       (gold (st (fst visit))).

(** The total the inner loop accumulates over a path. *)
Definition path_value (st : store) (path : list (loc * Z)) : Q :=
  fold_left (fun total visit => (total + reward_of st visit)%Q) path 0%Q.

(** The path [select_sites] returns for a budget. *)
Definition path_at (s : State) (b : Z) : list (loc * Z) :=
  match fst (select_sites (with_budget s b)) with
  | Ok path => path
  | Raise _ => []
  end.

(** The order in which [_create_bst] inserts the elements of a list: the
    median, those left of it from right to left, those right of it from
    left to right. *)
Definition insertion_order {A : Type} (l : list A) : list A :=
  let m := (length l / 2)%nat in
  match nth_error l m with
  | Some x => x :: rev (firstn m l) ++ skipn (S m) l
  | None => []
  end.

(** Inserting sites one after the other under their ratio keys. *)
Definition insert_all (st : store) (items : list loc) (t : BinarySearchTree)
  : BinarySearchTree :=
  fold_left (fun t item => bst_setitem (ratio_of (st item)) item t) items t.

(** The insertion loops of [_create_bst] and [_append_to_bst] as one pass
    over the sites inserted: the key of a site without reward faults. *)
Fixpoint insert_run (st : store) (items : list loc) (t : BinarySearchTree)
  : outcome BinarySearchTree :=
  match items with
  | [] => Ok t
  | item :: items' =>
      if Qeq_bool (gold (st item)) 0 then Raise ZeroDivisionError
      else insert_run st items' (bst_setitem (ratio_of (st item)) item t)
  end.

(** The sites of a list have ratios that tell them apart. *)
Definition ratios_distinct (st : store) (l : list loc) : Prop :=
  NoDup l /\
  forall x y, In x l -> In y l ->
              (ratio_of (st x) == ratio_of (st y))%Q -> x = y.










End Mode1.

(** * Mode 2: the per-day greedy assignment over teams ([mode2.py]) *)

Module Mode2.

(** [heap_node.py]: a site paired with its o-score; every comparison of two
    nodes compares the scores only. *)
Record HeapNode : Type := mkHeapNode {
  land : loc;
  o_score : Q
}.

Definition get_land (n : HeapNode) : loc := land n.
Definition get_score (n : HeapNode) : Q := o_score n.

(** [HeapNode.__le__] *)
Definition node_le (a b : HeapNode) : Prop := (o_score a <= o_score b)%Q.

(** The six comparison methods of [HeapNode], each on the scores alone. *)
Definition node_eq (self other : HeapNode) : bool :=
  Qeq_bool (o_score self) (o_score other).

Definition node_leb (self other : HeapNode) : bool :=
  Qle_bool (o_score self) (o_score other).

Definition node_ltb (self other : HeapNode) : bool :=
  Qltb (o_score self) (o_score other).

Definition node_geb (self other : HeapNode) : bool :=
  Qle_bool (o_score other) (o_score self).

Definition node_gtb (self other : HeapNode) : bool :=
  Qgtb (o_score self) (o_score other).

Definition node_ne (self other : HeapNode) : bool :=
  negb (Qeq_bool (o_score self) (o_score other)).

(** Modelled from the spec: the max-priority queue of
    [data_structures/heap.py], which is not part of the sources at hand.
    The contract names three operations: bulk build from an array, pop of
    a maximum (failing on the empty queue) and insert; which of several
    entries of equal score is popped is left open.  The operations are an
    interface, so that what is proved holds for every queue that meets the
    contract; [entries] is the bag of nodes a queue holds. *)
Class MaxHeapOps : Type := {
  MaxHeap : Type;
  heapify : list HeapNode -> MaxHeap;
  get_max : MaxHeap -> option (HeapNode * MaxHeap);
  add : MaxHeap -> HeapNode -> MaxHeap;
  entries : MaxHeap -> list HeapNode
}.

Class MaxHeapLaws (H : MaxHeapOps) : Prop := {
  heapify_entries : forall l, Permutation (entries (heapify l)) l;
  add_entries : forall h x, Permutation (entries (add h x)) (x :: entries h);
  get_max_entries : forall h,
    match get_max h with
    | None => entries h = []
    | Some (x, h') =>
        Permutation (entries h) (x :: entries h') /\
        Forall (fun y => node_le y x) (entries h')
    end
}.

(** A queue that meets the contract: an unordered list, popped by a scan
    that keeps the first of the maximal nodes. *)
Fixpoint extract_max (l : list HeapNode) : option (HeapNode * list HeapNode) :=
  match l with
  | [] => None
  | x :: l' =>
      match extract_max l' with
      | None => Some (x, [])
      | Some (y, r) =>
          if Qle_bool (o_score y) (o_score x) then Some (x, l')
          else Some (y, x :: r)
      end
  end.

Definition ListHeap : MaxHeapOps := {|
  MaxHeap := list HeapNode;
  heapify := fun l => l;
  get_max := extract_max;
  add := fun h x => x :: h;
  entries := fun h => h
|}.

Section Navigator.

Context {H : MaxHeapOps}.

(** The navigator object together with the store of the [Land] objects it
    refers to.  [sites] and [sites_temp] start as [None]. *)
Record State : Type := mkState {
  lands : store;
  sites : option MaxHeap;
  sites_temp : option (list loc);
  n_teams : Z
}.

(** [Mode2Navigator(n_teams)] *)
Definition init (st : store) (n : Z) : State := mkState st None None n.

Definition get_guardians (site : loc) : M State Z :=
  gets (fun s => guardians (lands s site)).

Definition get_gold (site : loc) : M State Q :=
  gets (fun s => gold (lands s site)).

(** [land.set_guardians(g)] *)
Definition call_set_guardians (site : loc) (g : Z) : M State unit :=
  modify (fun s =>
    mkState (upd (lands s) site (set_guardians (lands s site) g))
            (sites s) (sites_temp s) (n_teams s)).

(** [land.set_gold(r)] *)
Definition call_set_gold (site : loc) (r : Q) : M State unit :=
  modify (fun s =>
    mkState (upd (lands s) site (set_gold (lands s site) r))
            (sites s) (sites_temp s) (n_teams s)).

(** [self.sites = h] *)
Definition assign_sites (h : option MaxHeap) : M State unit :=
  modify (fun s => mkState (lands s) h (sites_temp s) (n_teams s)).

(** [self.sites_temp = a] *)
Definition assign_sites_temp (a : list loc) : M State unit :=
  modify (fun s => mkState (lands s) (sites s) (Some a) (n_teams s)).

Definition add_sites (new_sites : list loc) : M State unit :=
  buffer <- gets sites_temp ;;
  match buffer with
  | None | Some [] =>             (* not self.sites_temp *)
      assign_sites_temp new_sites
  | Some old_array =>
      assign_sites_temp (old_array ++ new_sites)
  end.

Definition compute_score (site : loc) (adventurers_size : Z)
  : M State (Q * Q * Z) :=
  g <- get_guardians site ;;
  let minimum_adventurers_needed := Z.min g adventurers_size in
  reward_earned <-
    try_except
      (r <- get_gold site ;;
       g' <- get_guardians site ;;
       q <- pydiv (inject_Z minimum_adventurers_needed * r) (inject_Z g') ;;
       r' <- get_gold site ;;
       ret (Qmin q r'))
      ZeroDivisionError
      (ret 0%Q) ;;
  let remaining_adventurers :=
    (adventurers_size - minimum_adventurers_needed)%Z in
  let o_score := ((5 # 2) * inject_Z remaining_adventurers + reward_earned)%Q in
  ret (o_score, reward_earned, remaining_adventurers).

Definition construct_score_data_structure (adventurer_size : Z)
  : M State MaxHeap :=
  buffer <- gets sites_temp ;;
  match buffer with
  | None => raise TypeError                      (* len(None) *)
  | Some a =>
      arr <- for_each a []
               (fun arr site =>
                  res <- compute_score site adventurer_size ;;
                  ret (arr ++ [mkHeapNode site (fst (fst res))])) ;;
      ret (heapify arr)
  end.

(** [self.sites.get_max()] *)
Definition sites_get_max : M State HeapNode :=
  q <- gets sites ;;
  match q with
  | None => raise AttributeError
  | Some h =>
      match get_max h with
      | None => raise IndexError               (* the empty-queue condition *)
      | Some (x, h') => assign_sites (Some h') ;; ret x
      end
  end.

(** [self.sites.add(node)] *)
Definition sites_add (node : HeapNode) : M State unit :=
  q <- gets sites ;;
  match q with
  | None => raise AttributeError
  | Some h => assign_sites (Some (add h node))
  end.

Definition _update_site (land : loc) (reward_lost : Q) (guardians_lost : Z)
    (adventurer_size : Z) : M State unit :=
  g <- get_guardians land ;;
  call_set_guardians land (g - guardians_lost)%Z ;;
  r <- get_gold land ;;
  call_set_gold land (Qmax 0 (r - reward_lost)) ;;
  res <- compute_score land adventurer_size ;;
  sites_add (mkHeapNode land (fst (fst res))).

(** One pass of the [for] loop of [simulate_day]: the turn of one team. *)
Definition team_turn (adventurer_size : Z)
    (res_tuples : list (option loc * Z)) : M State (list (option loc * Z)) :=
  heap_node <- sites_get_max ;;
  let current_land := get_land heap_node in
  let current_score := get_score heap_node in
  res <-
    (if Qgtb current_score ((5 # 2) * inject_Z adventurer_size) then
       result <- compute_score current_land adventurer_size ;;
       let res := (Some current_land, (adventurer_size - snd result)%Z) in
       _update_site current_land (snd (fst result))
         (adventurer_size - snd result)%Z adventurer_size ;;
       ret res
     else ret (None, 0%Z)) ;;
  ret (res_tuples ++ [res]).

Definition simulate_day (adventurer_size : Z)
  : M State (list (option loc * Z)) :=
  h <- construct_score_data_structure adventurer_size ;;
  assign_sites (Some h) ;;
  n <- gets n_teams ;;
  for_each (range n) [] (fun res_tuples _ => team_turn adventurer_size res_tuples).

(** *** The claims' words, for comparison with the code *)

(** The score formula of the data model. *)
Definition score_formula (site : Land) (B : Z) : Q * Q * Z :=
  let needed := Z.min (guardians site) B in
  let reward_ob :=
    if (guardians site =? 0)%Z then 0%Q
    else Qmin (inject_Z needed * gold site / inject_Z (guardians site))
              (gold site) in
  let leftover := (B - needed)%Z in
  (((5 # 2) * inject_Z leftover + reward_ob)%Q, reward_ob, leftover).

(** The attack threshold [score > 2.5 * B]. *)
Definition attacks (score : Q) (B : Z) : Prop :=
  ((5 # 2) * inject_Z B < score)%Q.

(** The site an attack with budget [B] leaves behind: the guard cost is
    decremented by [B - leftover], the reward by the reward obtained, with
    a floor of zero. *)
Definition depleted (site : Land) (B : Z) : Land :=
  let result := score_formula site B in
  mkLand (name site)
         (Qmax 0 (gold site - snd (fst result)))
         (guardians site - (B - snd result)).

(** The node built for a site from the store's current values. *)
Definition node_for (st : store) (B : Z) (site : loc) : HeapNode :=
  mkHeapNode site (fst (fst (score_formula (st site) B))).

(** A site's fields are non-negative. *)
Definition site_ok (v : Land) : Prop :=
  (0 <= gold v)%Q /\ (0 <= guardians v)%Z.

(** No node of a bag of nodes passes the threshold. *)
Definition quiet (B : Z) (l : list HeapNode) : Prop :=
  Forall (fun y => ~ attacks (o_score y) B) l.


(** The buffered sites of a state. *)
Definition buffered (s : State) : list loc :=
  match sites_temp s with
  | Some a => a
  | None => []
  end.

(** The nodes queued in a state. *)
Definition queued (s : State) : list HeapNode :=
  match sites s with
  | Some h => entries h
  | None => []
  end.

(** Every buffered site satisfies [P], and every queued node is for a
    buffered site. *)
Definition sites_inv (P : Land -> Prop) (s : State) : Prop :=
  Forall (fun l => P (lands s l)) (buffered s) /\
  Forall (fun n => In (land n) (buffered s)) (queued s).

(** The state a turn leaves when the popped entry does not pass the
    threshold: only the queue has changed. *)
Definition with_queue (s : State) (h : MaxHeap) : State :=
  mkState (lands s) (Some h) (sites_temp s) (n_teams s).

(** The turns of the teams in [teams], one after the other. *)
Definition turns (adventurer_size : Z) (teams : list Z)
    (res_tuples : list (option loc * Z)) : M State (list (option loc * Z)) :=
  for_each teams res_tuples
    (fun res_tuples _ => team_turn adventurer_size res_tuples).

(** [simulate_day] stopped after the turns of the first [k] teams. *)
Definition day_prefix (adventurer_size : Z) (k : nat)
  : M State (list (option loc * Z)) :=
  h <- construct_score_data_structure adventurer_size ;;
  assign_sites (Some h) ;;
  n <- gets n_teams ;;
  turns adventurer_size (firstn k (range n)) [].

(** What the pairs of a result list sent to one site, in total. *)
Fixpoint sent_to (site : loc) (res : list (option loc * Z)) : Z :=
  match res with
  | [] => 0%Z
  | (Some l, m) :: res' =>
      if Nat.eqb l site then (m + sent_to site res')%Z else sent_to site res'
  | (None, _) :: res' => sent_to site res'
  end.

(** The score the store's current values give a site. *)
Definition score_now (s : State) (B : Z) (site : loc) : Q :=
  fst (fst (score_formula (lands s site) B)).

(** Every queued node carries the score of its site's current values, and
    no site is queued twice. *)
Definition queue_fresh (B : Z) (s : State) : Prop :=
  Forall (fun n => o_score n = score_now s B (land n)) (queued s) /\
  NoDup (map land (queued s)).

End Navigator.

(** *** [add_sites], cell by cell *)

(** The buffer as the fixed-size array the code keeps it in, and
    [add_sites] with its allocation and its index loops.  The method reads
    and writes no field but [self.sites_temp], which is the state here. *)
Module Arrays.

(** Modelled from the spec: the array type of [data_structures], which is
    not part of the sources at hand: a length fixed at creation, indexed get
    and set, and an index outside [0, length) fails with a bounds condition.
    A cell holds a site or nothing yet.  What the constructor does with a
    given length is the parameter [alloc] of the methods below. *)
Definition ArrayR : Type := list (option loc).

(** Modelled from the spec: [len(a)]. *)
Definition array_len (a : ArrayR) : Z := Z.of_nat (length a).

(** Modelled from the spec: [a[i]], the content of the cell. *)
Definition array_getitem {S} (a : ArrayR) (i : Z) : M S (option loc) :=
  if ((i <? 0) || (array_len a <=? i))%Z%bool then raise IndexError
  else match nth_error a (Z.to_nat i) with
       | Some c => ret c
       | None => raise IndexError
       end.

(** Modelled from the spec: [a[i] = v]. *)
Definition array_setitem (a : ArrayR) (i : Z) (v : option loc)
  : outcome ArrayR :=
  if ((i <? 0) || (array_len a <=? i))%Z%bool then Raise IndexError
  else Ok (firstn (Z.to_nat i) a ++ v :: skipn (S (Z.to_nat i)) a).

(** [self.sites_temp = ArrayR(n)] *)
Definition new_sites_temp (alloc : Z -> outcome ArrayR) (n : Z)
  : M (option ArrayR) unit :=
  fun field =>
    match alloc n with
    | Ok a => (Ok tt, Some a)
    | Raise e => (Raise e, field)
    end.

(** [self.sites_temp[i] = v] *)
Definition sites_temp_setitem (i : Z) (v : option loc)
  : M (option ArrayR) unit :=
  fun field =>
    match field with
    | None => (Raise TypeError, field)
    | Some a =>
        match array_setitem a i v with
        | Ok a' => (Ok tt, Some a')
        | Raise e => (Raise e, field)
        end
    end.

(** [len(self.sites_temp)] *)
Definition sites_temp_len : M (option ArrayR) Z :=
  fun field =>
    match field with
    | None => (Raise TypeError, field)
    | Some a => (Ok (array_len a), field)
    end.

(** [not self.sites_temp]: true of [None] and of an array of length 0. *)
Definition not_sites_temp : M (option ArrayR) bool :=
  gets (fun field =>
          match field with
          | None => true
          | Some a => (array_len a =? 0)%Z
          end).

(** [add_sites(sites)] *)
Definition add_sites (alloc : Z -> outcome ArrayR) (sites : list loc)
  : M (option ArrayR) unit :=
  empty <- not_sites_temp ;;
  if empty then
    (* self.sites_temp = ArrayR(len(sites)) *)
    new_sites_temp alloc (Z.of_nat (length sites)) ;;
    (* for i in range(len(self.sites_temp)): self.sites_temp[i] = sites[i] *)
    n <- sites_temp_len ;;
    for_each (range n) tt
      (fun _ i =>
         x <- getitem sites i ;;
         sites_temp_setitem i (Some x))
  else
    (* old_array = self.sites_temp *)
    old <- gets (fun field => field) ;;
    match old with
    | None => raise TypeError                    (* len(None) *)
    | Some old_array =>
        (* self.sites_temp = ArrayR(len(old_array) + len(sites)) *)
        new_sites_temp alloc
          (array_len old_array + Z.of_nat (length sites)) ;;
        (* for _ in range(len(old_array)): self.sites_temp[_] = old_array[_] *)
        for_each (range (array_len old_array)) tt
          (fun _ i =>
             c <- array_getitem old_array i ;;
             sites_temp_setitem i c) ;;
        (* for i in range(len(sites)):
             self.sites_temp[len(old_array) + i] = sites[i] *)
        for_each (range (Z.of_nat (length sites))) tt
          (fun _ i =>
             x <- getitem sites i ;;
             sites_temp_setitem (array_len old_array + i) (Some x))
    end.

(** An array whose cells hold the sites of a list. *)
Definition full (l : list loc) : ArrayR := map Some l.

End Arrays.

End Mode2.

(** * The scenarios of the documentation *)

Module Scenario.

Definition A : loc := 0%nat.
Definition B : loc := 1%nat.
Definition C : loc := 2%nat.

(** [sites = [Land('A', 400, 100), Land('B', 750, 120), Land('C', 200, 30)]] *)
Definition day_store : store :=
  fun l =>
    match l with
    | 0%nat => mkLand "A" 400 100
    | 1%nat => mkLand "B" 750 120
    | _ => mkLand "C" 200 30
    end.

(** [nav = Mode2Navigator(5); nav.add_sites(sites)] *)
Definition day_start {H : Mode2.MaxHeapOps} : Mode2.State :=
  snd (Mode2.add_sites [A; B; C] (Mode2.init day_store 5)).

(** [sites = [Land('A', 500, 100), Land('B', 300, 170), Land('C', 100, 50)]] *)
Definition trip_store : store :=
  fun l =>
    match l with
    | 0%nat => mkLand "A" 500 100
    | 1%nat => mkLand "B" 300 170
    | _ => mkLand "C" 100 50
    end.

(** [nav = Mode1Navigator(sites, 300)] *)
Definition trip_start : Mode1.State :=
  snd (Mode1.init [A; B; C] 300 (Mode1.mkState trip_store [] 0)).

(** [Mode1Navigator([Land('Z', 500, 0)], 10)]: a site without guards. *)
Definition unguarded_store : store := fun _ => mkLand "Z" 500 0.

Definition unguarded_start : Mode1.State :=
  snd (Mode1.init [A] 10 (Mode1.mkState unguarded_store [] 0)).

(** One site that is not worth an attack, and two teams. *)
Definition poor_store : store := fun _ => mkLand "P" 10 100.

Definition poor_start : @Mode2.State Mode2.ListHeap :=
  snd (Mode2.add_sites [A] (Mode2.init poor_store 2)).

(** [nav = Mode2Navigator(5); nav.add_sites([Land('D', 980, 230)])]: five
    teams and a single site. *)
Definition D : loc := 3%nat.

Definition lone_store : store := fun _ => mkLand "D" 980 230.

Definition lone_start {H : Mode2.MaxHeapOps} : Mode2.State :=
  snd (Mode2.add_sites [D] (Mode2.init lone_store 5)).

End Scenario.

(** * Facts *)

(** ** The store and the monad *)

Lemma upd_same (st : store) l v : upd st l v l = v.
Proof. unfold upd. now rewrite Nat.eqb_refl. Qed.

Lemma upd_other (st : store) l l' v : l' <> l -> upd st l v l' = st l'.
Proof.
  intros Hne. unfold upd.
  destruct (Nat.eqb l' l) eqn:E; [apply Nat.eqb_eq in E; contradiction | reflexivity].
Qed.

Lemma bind_ok {S A B} (c : M S A) (k : A -> M S B) s a s' :
  c s = (Ok a, s') -> bind c k s = k a s'.
Proof. intros E. unfold bind. now rewrite E. Qed.

Lemma bind_raise {S A B} (c : M S A) (k : A -> M S B) s e s' :
  c s = (Raise e, s') -> bind c k s = (Raise e, s').
Proof. intros E. unfold bind. now rewrite E. Qed.

Lemma for_each_app {S A B} (l1 l2 : list A) (acc : B) (body : B -> A -> M S B) s :
  for_each (l1 ++ l2) acc body s =
  bind (for_each l1 acc body) (fun acc' => for_each l2 acc' body) s.
Proof.
  revert acc s. induction l1 as [|x l1 IH]; intros acc s; simpl.
  - reflexivity.
  - unfold bind in *. destruct (body acc x s) as [[a|e] s1].
    + apply IH.
    + reflexivity.
Qed.

Lemma range_length n : length (range n) = Z.to_nat n.
Proof. unfold range. now rewrite length_map, length_seq. Qed.

Lemma Qeq_bool_inject_Z_0 (g : Z) : Qeq_bool (inject_Z g) 0 = (g =? 0)%Z.
Proof. unfold Qeq_bool. simpl. now rewrite Z.mul_1_r. Qed.

Lemma Qgtb_true_iff (a b : Q) : Qgtb a b = true <-> (b < a)%Q.
Proof.
  unfold Qgtb. rewrite Qgt_alt.
  destruct (a ?= b)%Q; split; congruence.
Qed.

Lemma Qgtb_false_iff (a b : Q) : Qgtb a b = false <-> (a <= b)%Q.
Proof.
  unfold Qgtb. rewrite Qle_alt.
  destruct (a ?= b)%Q; split; congruence.
Qed.

(** ** Mode 1 *)

Module Mode1Facts.
Import Mode1.

(** *** The documented trip *)

Example trip_container :
  sites Scenario.trip_start
  = [((100 # 500)%Q, Scenario.A); ((50 # 100)%Q, Scenario.C);
     ((170 # 300)%Q, Scenario.B)].
Proof. vm_compute. reflexivity. Qed.

Example trip_select_sites :
  fst (select_sites Scenario.trip_start)
  = Ok [(Scenario.A, 100%Z); (Scenario.C, 50%Z); (Scenario.B, 150%Z)].
Proof. vm_compute. reflexivity. Qed.

Example trip_rewards :
  match fst (select_sites_from_adventure_numbers [130; 500; 230]%Z
               Scenario.trip_start) with
  | Ok [r1; r2; r3] =>
      (r1 == 560 /\ r2 == 900 /\ r3 == 12600 # 17)%Q
  | _ => False
  end.
Proof. vm_compute. repeat split. Qed.

(** *** The ordered container *)

Lemma Qeq_bool_false_of_lt (a b : Q) : (a < b)%Q -> Qeq_bool a b = false.
Proof.
  intros Hlt. destruct (Qeq_bool a b) eqn:E; [|reflexivity].
  apply Qeq_bool_iff in E. rewrite E in Hlt. now apply Qlt_irrefl in Hlt.
Qed.

Lemma Qeq_bool_false_of_gt (a b : Q) : (b < a)%Q -> Qeq_bool a b = false.
Proof.
  intros Hlt. destruct (Qeq_bool a b) eqn:E; [|reflexivity].
  apply Qeq_bool_iff in E. rewrite E in Hlt. now apply Qlt_irrefl in Hlt.
Qed.

Lemma Qeq_bool_false_of_neq (a b : Q) : ~ (a == b)%Q -> Qeq_bool a b = false.
Proof.
  intros Hne. destruct (Qeq_bool a b) eqn:E; [|reflexivity].
  apply Qeq_bool_iff in E. contradiction.
Qed.

Lemma bst_getitem_setitem_same (k : Q) (v : loc) (t : BinarySearchTree) :
  bst_getitem k (bst_setitem k v t) = Some v.
Proof.
  induction t as [|[k' v'] t IH]; simpl.
  - now rewrite Qeq_bool_refl.
  - destruct (k ?= k')%Q eqn:E; simpl.
    + now rewrite Qeq_bool_refl.
    + now rewrite Qeq_bool_refl.
    + apply Qgt_alt in E. now rewrite (Qeq_bool_false_of_gt _ _ E).
Qed.

Lemma bst_getitem_setitem_other (k k2 : Q) (v : loc) (t : BinarySearchTree) :
  ~ (k == k2)%Q ->
  bst_getitem k (bst_setitem k2 v t) = bst_getitem k t.
Proof.
  intros Hne. induction t as [|[k' v'] t IH]; simpl.
  - now rewrite (Qeq_bool_false_of_neq _ _ Hne).
  - destruct (k2 ?= k')%Q eqn:E; simpl.
    + apply Qeq_alt in E.
      rewrite (Qeq_bool_false_of_neq _ _ Hne).
      assert (Hne' : ~ (k == k')%Q) by (intros Hc; apply Hne; now rewrite E).
      now rewrite (Qeq_bool_false_of_neq _ _ Hne').
    + now rewrite (Qeq_bool_false_of_neq _ _ Hne).
    + now rewrite IH.
Qed.

Lemma bst_getitem_above (k : Q) (t : BinarySearchTree) :
  Forall (fun e => (k < fst e)%Q) t -> bst_getitem k t = None.
Proof.
  induction 1 as [|[k' v'] t Hlt _ IH]; simpl; [reflexivity|].
  simpl in Hlt. now rewrite (Qeq_bool_false_of_lt _ _ Hlt).
Qed.

Lemma bst_delitem_getitem (k : Q) (t t' : BinarySearchTree) :
  bst_ok t -> bst_delitem k t = Some t' -> bst_getitem k t' = None.
Proof.
  intros Hok. revert t'.
  induction Hok as [|[k' v'] t Hok IH Hall]; intros t' Hdel; simpl in Hdel.
  - discriminate.
  - destruct (Qeq_bool k k') eqn:E.
    + inversion Hdel; subst. apply Qeq_bool_iff in E.
      apply bst_getitem_above. eapply Forall_impl; [|exact Hall].
      intros e He. simpl in He. now rewrite E.
    + destruct (bst_delitem k t) as [t1|]; [|discriminate].
      inversion Hdel; subst. simpl. rewrite E. now apply IH.
Qed.

Lemma bst_delitem_present (k : Q) (v : loc) (t : BinarySearchTree) :
  bst_getitem k t = Some v -> exists t', bst_delitem k t = Some t'.
Proof.
  induction t as [|[k' v'] t IH]; simpl; [discriminate|].
  destruct (Qeq_bool k k').
  - intros _. now exists t.
  - intros Hget. destruct (IH Hget) as [t1 E]. rewrite E. simpl. eauto.
Qed.

Lemma bst_delitem_entries (k : Q) (t t' : BinarySearchTree) :
  bst_delitem k t = Some t' -> forall e, In e t' -> In e t.
Proof.
  revert t'. induction t as [|[k' v'] t IH]; intros t' Hdel e He; simpl in Hdel.
  - discriminate.
  - destruct (Qeq_bool k k').
    + inversion Hdel; subst. now right.
    + destruct (bst_delitem k t) as [t1|]; [|discriminate].
      inversion Hdel; subst. destruct He as [<-|He]; [now left|].
      right. now apply (IH t1).
Qed.

Lemma bst_delitem_ok (k : Q) (t t' : BinarySearchTree) :
  bst_ok t -> bst_delitem k t = Some t' -> bst_ok t'.
Proof.
  intros Hok. revert t'.
  induction Hok as [|[k' v'] t Hok IH Hall]; intros t' Hdel; simpl in Hdel.
  - discriminate.
  - destruct (Qeq_bool k k').
    + now inversion Hdel; subst.
    + destruct (bst_delitem k t) as [t1|] eqn:E; [|discriminate].
      inversion Hdel; subst. constructor; [now apply IH|].
      rewrite Forall_forall in *. intros e He.
      apply Hall. now apply (bst_delitem_entries k t t1).
Qed.

Lemma bst_setitem_entries (k : Q) (v : loc) (t : BinarySearchTree) :
  forall e, In e (bst_setitem k v t) -> e = (k, v) \/ In e t.
Proof.
  induction t as [|[k' v'] t IH]; intros e He; simpl in He.
  - destruct He as [<-|[]]. now left.
  - destruct (k ?= k')%Q.
    + destruct He as [<-|He]; [now left | right; now right].
    + destruct He as [<-|He]; [now left | now right].
    + destruct He as [<-|He]; [right; now left|].
      destruct (IH e He) as [->|Hin]; [now left | right; now right].
Qed.

Lemma bst_setitem_ok (k : Q) (v : loc) (t : BinarySearchTree) :
  bst_ok t -> bst_ok (bst_setitem k v t).
Proof.
  intros Hok.
  induction Hok as [|[k' v'] t Hok IH Hall]; simpl.
  - repeat constructor.
  - destruct (k ?= k')%Q eqn:E.
    + apply Qeq_alt in E. constructor; [exact Hok|].
      eapply Forall_impl; [|exact Hall].
      intros e He. simpl in *. now rewrite E.
    + apply Qlt_alt in E. constructor; [now constructor|].
      constructor; [exact E|].
      eapply Forall_impl; [|exact Hall].
      intros e He. simpl in *. eapply Qlt_trans; eassumption.
    + apply Qgt_alt in E. constructor; [exact IH|].
      rewrite Forall_forall in *. intros e He.
      destruct (bst_setitem_entries k v t e He) as [->|Hin]; [exact E|].
      now apply Hall.
Qed.

(** *** The greedy scan *)

Lemma select_loop_spec (s : State) (nodes : list (Q * loc)) :
  forall (remaining : Z) (acc : list (loc * Z)),
  exists new rem,
    select_loop nodes remaining acc s = (Ok (acc ++ new, rem), s) /\
    (exists seen rest,
        nodes = seen ++ rest /\ map snd seen = visited new) /\
    rem = (remaining - sumZ (sent new))%Z /\
    (forall i l m,
        nth_error new i = Some (l, m) ->
        (0 < remaining_before remaining new i)%Z /\
        m = Z.min (remaining_before remaining new i) (guardians (lands s l))) /\
    ((rem <= 0)%Z \/ length new = length nodes) /\
    ((0 <= remaining)%Z -> (0 <= rem)%Z) /\
    ((remaining <= 0)%Z -> new = []) /\
    (nodes = [] -> new = []).
Proof.
  induction nodes as [|[k l] nodes IH]; intros remaining acc.
  - exists [], remaining. simpl.
    split; [rewrite app_nil_r; destruct (remaining >? 0)%Z; reflexivity|].
    split; [exists [], []; split; reflexivity|].
    split; [lia|].
    split; [intros [|i] l m Hn; discriminate|].
    split; [now right|]. split; [lia|]. split; reflexivity.
  - simpl. destruct (remaining >? 0)%Z eqn:Hpos.
    + apply Z.gtb_lt in Hpos.
      set (m := Z.min remaining (guardians (lands s l))).
      destruct (IH (remaining - m)%Z (acc ++ [(l, m)]))
        as (new & rem & Hrun & (seen & rest & Hsplit & Hseen) & Hrem & Hnth
            & Hstop & Hnn & _ & _).
      exists ((l, m) :: new), rem.
      split.
      { unfold bind, get_guardians, gets. fold m.
        rewrite Hrun, <- app_assoc. reflexivity. }
      split.
      { exists ((k, l) :: seen), rest. split.
        - now rewrite Hsplit.
        - unfold visited in *. simpl. now rewrite Hseen. }
      split.
      { rewrite Hrem. unfold sent. simpl. lia. }
      split.
      { intros [|i] l' m' Hn; simpl in Hn.
        - inversion Hn; subst l' m'. unfold remaining_before. simpl.
          rewrite Z.sub_0_r. split; [exact Hpos | reflexivity].
        - destruct (Hnth i l' m' Hn) as [H1 H2].
          assert (Heq : remaining_before remaining ((l, m) :: new) (S i)
                        = remaining_before (remaining - m) new i)
            by (unfold remaining_before, sent; simpl; lia).
          rewrite Heq. split; assumption. }
      split.
      { destruct Hstop as [Hle|Hlen]; [now left | right; simpl; now rewrite Hlen]. }
      split.
      { intros Hr. apply Hnn. subst m. lia. }
      split; [lia | discriminate].
    + rewrite Z.gtb_ltb in Hpos. apply Z.ltb_ge in Hpos.
      exists [], remaining.
      split; [now rewrite app_nil_r|].
      split; [exists [], ((k, l) :: nodes); split; reflexivity|].
      split; [simpl; lia|].
      split; [intros [|i] l' m' Hn; discriminate|].
      split; [now left|]. split; [lia|]. split; [reflexivity | discriminate].
Qed.

Lemma select_sites_aux_run (s : State) :
  exists res rem,
    select_sites_aux s = (Ok (res, rem), s) /\
    select_sites s = (Ok res, s) /\
    exists seen rest,
      bst_iter (sites s) = seen ++ rest /\ map snd seen = visited res.
Proof.
  destruct (select_loop_spec s (bst_iter (sites s)) (total_adventurers s) [])
    as (new & rem & Hrun & Hseen & _).
  exists new, rem.
  assert (Haux : select_sites_aux s = (Ok (new, rem), s))
    by (unfold select_sites_aux, bind, gets; exact Hrun).
  split; [exact Haux|].
  split; [|exact Hseen].
  unfold select_sites. now rewrite (bind_ok _ _ _ _ _ Haux).
Qed.

Lemma ascending_prefix (seen rest : list (Q * loc)) :
  bst_ok (seen ++ rest) ->
  StronglySorted Qlt (map fst seen).
Proof.
  induction seen as [|e seen IH]; simpl; intros Hok.
  - constructor.
  - inversion Hok as [|? ? Hok' Hall]; subst.
    constructor; [now apply IH|].
    rewrite Forall_map. apply Forall_app in Hall as [Hall _]. exact Hall.
Qed.

(** C3. [select_sites()] visits the entries of the container in iteration
    order, which is ascending key order, and no others; before each visit
    something remains, and the visit sends [min(remaining, guard_cost)];
    it stops when nothing remains or the traversal is exhausted; the list
    is empty for an empty container and for a budget of zero (or below);
    the sum of
    what was sent is the starting budget minus what remains after the
    traversal, and, budgets being non-negative, never exceeds the starting
    budget.  The call changes nothing. *)
Theorem select_sites_greedy (s : State) :
  exists res rem,
    select_sites_aux s = (Ok (res, rem), s) /\
    select_sites s = (Ok res, s) /\
    (exists seen rest,
        bst_iter (sites s) = seen ++ rest /\
        map snd seen = visited res /\
        (bst_ok (sites s) -> StronglySorted Qlt (map fst seen))) /\
    (forall i l m,
        nth_error res i = Some (l, m) ->
        (0 < remaining_before (total_adventurers s) res i)%Z /\
        m = Z.min (remaining_before (total_adventurers s) res i)
                  (guardians (lands s l))) /\
    ((rem <= 0)%Z \/ length res = length (bst_iter (sites s))) /\
    (sites s = [] \/ (total_adventurers s <= 0)%Z -> res = []) /\
    sumZ (sent res) = (total_adventurers s - rem)%Z /\
    ((0 <= total_adventurers s)%Z ->
     (0 <= rem)%Z /\
     (rem = 0%Z \/ length res = length (bst_iter (sites s))) /\
     (sumZ (sent res) <= total_adventurers s)%Z).
Proof.
  destruct (select_loop_spec s (bst_iter (sites s)) (total_adventurers s) [])
    as (res & rem & Hrun & (seen & rest & Hsplit & Hseen) & Hrem & Hnth
        & Hstop & Hnn & Hzero & Hnil).
  exists res, rem.
  assert (Haux : select_sites_aux s = (Ok (res, rem), s))
    by (unfold select_sites_aux, bind, gets; exact Hrun).
  split; [exact Haux|].
  split; [unfold select_sites; now rewrite (bind_ok _ _ _ _ _ Haux)|].
  split.
  { exists seen, rest. split; [exact Hsplit|]. split; [exact Hseen|].
    intros Hok. unfold bst_iter in Hsplit. rewrite Hsplit in Hok.
    now apply (ascending_prefix seen rest). }
  split; [exact Hnth|].
  split; [exact Hstop|].
  split.
  { intros [He|Hz]; [apply Hnil; exact He | apply Hzero; lia]. }
  split; [lia|].
  intros Hb. specialize (Hnn Hb). split; [exact Hnn|].
  split; [destruct Hstop; [left; lia | now right] | lia].
Qed.

(** *** Probing budgets *)

Lemma visit_reward_run (land : loc) (adv : Z) (s : State) :
  visit_reward land adv s
  = if (guardians (lands s land) =? 0)%Z
    then (Raise ZeroDivisionError, s)
    else (Ok (Qmin (inject_Z adv * gold (lands s land)
                    / inject_Z (guardians (lands s land)))
                   (gold (lands s land))), s).
Proof.
  unfold visit_reward, bind, get_gold, get_guardians, gets, pydiv, raise, ret.
  rewrite Qeq_bool_inject_Z_0.
  destruct (guardians (lands s land) =? 0)%Z; reflexivity.
Qed.

Lemma rewards_frame (path : list (loc * Z)) :
  forall (total : Q) (s : State),
  exists o,
    for_each path total
      (fun total_reward visit =>
         reward <- visit_reward (fst visit) (snd visit) ;;
         ret (total_reward + reward)%Q) s = (o, s) /\
    (o = Raise ZeroDivisionError \/
     (exists q, o = Ok q) /\
     Forall (fun v => guardians (lands s (fst v)) <> 0%Z) path) /\
    (Forall (fun v => guardians (lands s (fst v)) <> 0%Z) path ->
     exists q, o = Ok q).
Proof.
  induction path as [|[l m] path IH]; intros total s; simpl.
  - exists (Ok total). split; [reflexivity|].
    split; [right; split; [now exists total | constructor] | now exists total].
  - unfold bind at 1. unfold bind at 1. rewrite visit_reward_run. cbn [fst snd].
    destruct (guardians (lands s l) =? 0)%Z eqn:E.
    + exists (Raise ZeroDivisionError). split; [reflexivity|].
      split; [now left|].
      intros Hall. inversion Hall as [|? ? Hne _]; subst. cbn in Hne.
      apply Z.eqb_eq in E. contradiction.
    + apply Z.eqb_neq in E. unfold ret at 1.
      match goal with |- context [for_each path ?t _ s] =>
        destruct (IH t s) as (o & Hrun & Hcase & Hok) end.
      exists o. split; [exact Hrun|]. split.
      * destruct Hcase as [->|[Hq Hall]]; [now left|].
        right. split; [exact Hq|]. constructor; [exact E | exact Hall].
      * intros Hall. apply Hok. now inversion Hall.
Qed.

Lemma probe_frame (acc : list Q) (b : Z) (s : State) :
  exists o,
    probe acc b s = (o, with_budget s b) /\
    (o = Raise ZeroDivisionError \/ exists q, o = Ok (acc ++ [q])) /\
    (Forall (fun e => guardians (lands s (snd e)) <> 0%Z) (sites s) ->
     exists q, o = Ok (acc ++ [q])).
Proof.
  unfold probe, bind at 1, assign_total_adventurers, modify.
  fold (with_budget s b).
  destruct (select_sites_aux_run (with_budget s b))
    as (res & rem & _ & Hsel & seen & rest & Hsplit & Hseen).
  rewrite (bind_ok _ _ _ _ _ Hsel).
  destruct (rewards_frame res 0%Q (with_budget s b)) as (o & Hrun & Hcase & Hok).
  fold (path_reward res) in Hrun.
  destruct o as [q|e].
  - rewrite (bind_ok _ _ _ _ _ Hrun).
    exists (Ok (acc ++ [q])). split; [reflexivity|].
    split; [right; now exists q | intros _; now exists q].
  - rewrite (bind_raise _ _ _ _ _ Hrun).
    exists (Raise e). split; [reflexivity|].
    destruct Hcase as [He|[[q Hq] _]]; [|discriminate].
    split; [left; inversion He; reflexivity|].
    intros Hall. exfalso. destruct Hok as [q Hq]; [|discriminate].
    cbn [with_budget lands sites] in *. unfold bst_iter in Hsplit.
    rewrite Hsplit in Hall. apply Forall_app in Hall as [Hall _].
    unfold visited in Hseen.
    apply (Forall_map fst (fun l => guardians (lands s l) <> 0%Z)).
    rewrite <- Hseen. now apply Forall_map.
Qed.

Lemma probes_frame (nums : list Z) :
  forall (acc : list Q) (s : State),
  exists o s',
    for_each nums acc probe s = (o, s') /\
    lands s' = lands s /\ sites s' = sites s /\
    (o = Raise ZeroDivisionError \/
     exists r, o = Ok r /\ length r = (length acc + length nums)%nat) /\
    (Forall (fun e => guardians (lands s (snd e)) <> 0%Z) (sites s) ->
     exists r, o = Ok r).
Proof.
  induction nums as [|b nums IH]; intros acc s; simpl.
  - exists (Ok acc), s. repeat split; try reflexivity.
    + right. exists acc. split; [reflexivity | lia].
    + intros _. now exists acc.
  - destruct (probe_frame acc b s) as (o & Hrun & Hcase & Hok).
    unfold bind. rewrite Hrun.
    destruct o as [r1|e].
    + destruct (IH r1 (with_budget s b)) as (o2 & s2 & Hrun2 & Hl & Hs & Hc2 & Hok2).
      exists o2, s2. split; [exact Hrun2|].
      split; [exact Hl|]. split; [exact Hs|]. split.
      * destruct Hc2 as [->|(r & -> & Hlen)]; [now left|].
        right. exists r. split; [reflexivity|].
        destruct Hcase as [?|[q Hq]]; [discriminate|].
        inversion Hq; subst. rewrite Hlen, length_app. simpl. lia.
      * intros Hall. now apply Hok2.
    + exists (Raise e), (with_budget s b).
      split; [reflexivity|]. split; [reflexivity|]. split; [reflexivity|].
      destruct Hcase as [He|[q Hq]]; [|discriminate].
      split; [now left|].
      intros Hall. destruct (Hok Hall) as [q Hq]. discriminate.
Qed.

Lemma state_eta (s s' : State) :
  lands s' = lands s -> sites s' = sites s ->
  mkState (lands s') (sites s') (total_adventurers s) = s.
Proof. destruct s, s'; simpl. now intros -> ->. Qed.

Lemma probing_run (nums : list Z) (s : State) :
  (exists r,
      select_sites_from_adventure_numbers nums s = (Ok r, s) /\
      length r = length nums) \/
  (exists s',
      select_sites_from_adventure_numbers nums s = (Raise ZeroDivisionError, s') /\
      lands s' = lands s /\ sites s' = sites s /\
      ~ Forall (fun e => guardians (lands s (snd e)) <> 0%Z) (sites s)).
Proof.
  assert (Hfirst :
    select_sites_from_adventure_numbers nums s
    = bind (for_each nums [] probe)
        (fun res_rewards =>
           assign_total_adventurers (total_adventurers s) ;; ret res_rewards) s)
    by reflexivity.
  rewrite Hfirst. clear Hfirst.
  destruct (probes_frame nums [] s) as (o & s' & Hrun & Hl & Hs & Hcase & Hok).
  destruct Hcase as [->|(r & -> & Hlen)].
  - right. exists s'. rewrite (bind_raise _ _ _ _ _ Hrun).
    split; [reflexivity|]. split; [exact Hl|]. split; [exact Hs|].
    intros Hall. destruct (Hok Hall) as [r Hr]. discriminate.
  - left. exists r. rewrite (bind_ok _ _ _ _ _ Hrun). split; [|exact Hlen].
    unfold bind, assign_total_adventurers, modify, ret.
    now rewrite (state_eta s s' Hl Hs).
Qed.

(** C7. When [select_sites_from_adventure_numbers] returns, the stored
    budget is what it was before the call, with one reward per probed
    budget, however many were probed; and it does return whenever no site
    of the container has a guard cost of zero. *)
Theorem probing_restores_budget (nums : list Z) (s : State) :
  (forall r s',
      select_sites_from_adventure_numbers nums s = (Ok r, s') ->
      total_adventurers s' = total_adventurers s /\ length r = length nums) /\
  (Forall (fun e => guardians (lands s (snd e)) <> 0%Z) (sites s) ->
   exists r s',
     select_sites_from_adventure_numbers nums s = (Ok r, s') /\
     total_adventurers s' = total_adventurers s).
Proof.
  destruct (probing_run nums s) as [(r & Hrun & Hlen)|(s1 & Hrun & _ & _ & Hn)].
  - split.
    + intros r' s' E. rewrite Hrun in E. inversion E; subst. now split.
    + intros _. exists r, s. now split.
  - split.
    + intros r' s' E. rewrite Hrun in E. discriminate.
    + intros Hall. contradiction.
Qed.

(** C10. [select_sites()] changes neither a site nor the container nor the
    budget; when [select_sites_from_adventure_numbers] returns, the whole
    state, sites, container entries and budget, is the one before the
    call; and however it ends, every site and the container are the ones
    before the call. *)
Theorem selection_changes_nothing (s : State) :
  (exists res, select_sites s = (Ok res, s)) /\
  (forall nums r s',
      select_sites_from_adventure_numbers nums s = (Ok r, s') -> s' = s) /\
  (forall nums,
      lands (snd (select_sites_from_adventure_numbers nums s)) = lands s /\
      sites (snd (select_sites_from_adventure_numbers nums s)) = sites s).
Proof.
  split; [|split].
  - destruct (select_sites_aux_run s) as (res & rem & _ & Hsel & _). now exists res.
  - intros nums r s' E.
    destruct (probing_run nums s) as [(r1 & Hrun & _)|(s1 & Hrun & _)];
      rewrite Hrun in E; [now inversion E | discriminate].
  - intros nums.
    destruct (probing_run nums s) as [(r1 & Hrun & _)|(s1 & Hrun & Hl & Hs & _)];
      rewrite Hrun; cbn [snd]; split; auto.
Qed.

(** C5, where the code departs from the claim: the site without guards is
    the first one visited, nobody is sent there, and the reward of the
    visit divides by its guard cost of zero: the call raises
    [ZeroDivisionError], and the budget stays at the probed value. *)
Theorem unguarded_site_faults :
  let run :=
    select_sites_from_adventure_numbers [7%Z] Scenario.unguarded_start in
  fst (select_sites (with_budget Scenario.unguarded_start 7))
  = Ok [(Scenario.A, 0%Z)] /\
  fst run = Raise ZeroDivisionError /\
  total_adventurers Scenario.unguarded_start = 10%Z /\
  total_adventurers (snd run) = 7%Z.
Proof. cbv zeta. repeat split; vm_compute; reflexivity. Qed.

(** The same on every navigator: a first site without guards and a positive
    first budget. *)
Lemma unguarded_first_site_faults (s : State) k l t b bs :
  sites s = (k, l) :: t ->
  guardians (lands s l) = 0%Z ->
  (0 < b)%Z ->
  fst (select_sites_from_adventure_numbers (b :: bs) s)
  = Raise ZeroDivisionError.
Proof.
  intros Hs Hg Hb.
  destruct (probing_run (b :: bs) s) as [(r & Hrun & _)|(s1 & Hrun & _)];
    [|now rewrite Hrun].
  exfalso. revert Hrun.
  unfold select_sites_from_adventure_numbers, bind at 1, gets.
  simpl for_each. unfold bind at 1. unfold bind at 1.
  unfold probe at 1, bind at 1, assign_total_adventurers, modify.
  unfold bind at 1, select_sites, bind at 1, select_sites_aux, bind at 1, gets.
  unfold bind at 1. cbn [total_adventurers sites]. rewrite Hs.
  unfold bst_iter. simpl select_loop.
  assert (Hpos : (b >? 0)%Z = true) by (apply Z.gtb_lt; exact Hb).
  rewrite Hpos. unfold bind at 1, get_guardians, gets. cbn [lands].
  rewrite Hg.
  match goal with |- context [select_loop t ?rem ?acc ?st] =>
    destruct (select_loop_spec st t rem acc) as (new & rem' & Hrun & _) end.
  rewrite Hrun. unfold ret at 1. cbn [fst].
  replace (Z.min b 0) with 0%Z by lia.
  unfold path_reward. simpl for_each.
  unfold bind at 1. unfold bind at 1. unfold bind at 1.
  rewrite visit_reward_run. cbn [fst snd lands]. rewrite Hg. cbn.
  discriminate.
Qed.

(** *** Updating a site *)

Lemma ratio_run (land : loc) (s : State) :
  ~ (gold (lands s land) == 0)%Q ->
  ratio land s = (Ok (ratio_of (lands s land)), s).
Proof.
  intros Hne. unfold ratio, bind, get_guardians, get_gold, gets, pydiv.
  now rewrite (Qeq_bool_false_of_neq _ _ Hne).
Qed.

Lemma ratio_fault (land : loc) (s : State) :
  (gold (lands s land) == 0)%Q ->
  ratio land s = (Raise ZeroDivisionError, s).
Proof.
  intros He. unfold ratio, bind, get_guardians, get_gold, gets, pydiv.
  now rewrite (Qeq_eq_bool _ _ He).
Qed.

(** C6, as the code has it.  For a site that the container holds under
    its current ratio key and a new reward other than zero,
    [update_site] deletes the entry under the old key, sets the two fields
    of the site, leaving every other site alone, and inserts the site
    under the ratio of the new values; afterwards a lookup at the new key
    returns the site, and a lookup at the old key fails provided the two
    keys differ; the container stays ordered and the budget is kept. *)
Theorem update_site_rekeys (s : State) (land : loc)
    (new_reward : Q) (new_guardians : Z) :
  bst_ok (sites s) ->
  ~ (gold (lands s land) == 0)%Q ->
  bst_getitem (ratio_of (lands s land)) (sites s) = Some land ->
  ~ (new_reward == 0)%Q ->
  let old_key := ratio_of (lands s land) in
  let new_key := (inject_Z new_guardians / new_reward)%Q in
  exists s' t_mid,
    update_site land new_reward new_guardians s = (Ok tt, s') /\
    bst_delitem old_key (sites s) = Some t_mid /\
    sites s' = bst_setitem new_key land t_mid /\
    lands s' land = mkLand (name (lands s land)) new_reward new_guardians /\
    (forall l, l <> land -> lands s' l = lands s l) /\
    total_adventurers s' = total_adventurers s /\
    bst_getitem new_key (sites s') = Some land /\
    (~ (old_key == new_key)%Q -> bst_getitem old_key (sites s') = None) /\
    bst_ok (sites s').
Proof.
  intros Hok Hgold Hget Hnew old_key new_key.
  destruct (bst_delitem_present _ _ _ Hget) as [t_mid Hdel].
  fold old_key in Hdel.
  unfold update_site.
  rewrite (bind_ok _ _ _ _ _ (ratio_run land s Hgold)).
  fold old_key.
  unfold bind at 1, sites_delitem, bind at 1, gets. rewrite Hdel.
  unfold assign_sites, modify.
  unfold bind at 1, assign_gold, modify.
  unfold bind at 1, assign_guardians, modify.
  cbn [lands sites total_adventurers].
  match goal with |- context [bind (ratio land) _ ?st] =>
    assert (Hr : ratio land st = (Ok new_key, st)) end.
  { rewrite ratio_run; cbn [lands]; rewrite !upd_same; cbn [gold set_guardians set_gold].
    - reflexivity.
    - exact Hnew. }
  rewrite (bind_ok _ _ _ _ _ Hr).
  unfold sites_setitem, bind, gets, assign_sites, modify.
  cbn [lands sites total_adventurers].
  eexists. exists t_mid.
  split; [reflexivity|]. split; [reflexivity|]. split; [reflexivity|].
  cbn [lands sites total_adventurers].
  split; [now rewrite !upd_same|].
  split; [intros l Hl; now rewrite !upd_other|].
  split; [reflexivity|].
  split; [apply bst_getitem_setitem_same|].
  split.
  - intros Hne. rewrite (bst_getitem_setitem_other _ _ _ _ Hne).
    now apply (bst_delitem_getitem old_key (sites s)).
  - apply bst_setitem_ok. now apply (bst_delitem_ok old_key (sites s)).
Qed.

Lemma update_site_rekeys_witness :
  exists s' t_mid,
    update_site Scenario.B 350 450 Scenario.trip_start = (Ok tt, s') /\
    bst_delitem (170 # 300) (sites Scenario.trip_start) = Some t_mid /\
    bst_getitem (450 # 350) (sites s') = Some Scenario.B /\
    bst_getitem (170 # 300) (sites s') = None.
Proof.
  destruct (update_site_rekeys Scenario.trip_start Scenario.B 350 450)
    as (s' & t_mid & Hrun & Hdel & _ & _ & _ & _ & Hnew & Hold & _).
  - vm_compute. repeat constructor.
  - vm_compute. discriminate.
  - vm_compute. reflexivity.
  - vm_compute. discriminate.
  - exists s', t_mid.
    split; [exact Hrun|]. split; [exact Hdel|]. split; [exact Hnew|].
    apply Hold. vm_compute. discriminate.
Defined.

(** The claim C6 fails as it is written when the new values have the ratio
    of the old ones: site [A(500, 100)], held under the key [100 / 500],
    is updated to [(1000, 200)]; the call returns, and a lookup at the old
    key still finds the site. *)
Lemma same_ratio_counterexample :
  let s := Scenario.trip_start in
  let old_key := ratio_of (lands s Scenario.A) in
  bst_getitem old_key (sites s) = Some Scenario.A /\
  fst (update_site Scenario.A 1000 200 s) = Ok tt /\
  bst_getitem old_key (sites (snd (update_site Scenario.A 1000 200 s)))
  = Some Scenario.A /\
  bst_getitem old_key (sites (snd (update_site Scenario.A 1000 200 s)))
  <> None.
Proof.
  cbv zeta. repeat split; try (vm_compute; reflexivity).
  vm_compute. discriminate.
Qed.

(** A new reward of zero: the entry has been deleted and the site changed
    when the new key is computed, and the division faults. *)
Example update_site_zero_reward :
  let r := update_site Scenario.A 0 200 Scenario.trip_start in
  fst r = Raise ZeroDivisionError /\
  bst_getitem (100 # 500) (sites (snd r)) = None /\
  lands (snd r) Scenario.A = mkLand "A" 0 200.
Proof. cbv zeta. repeat split; vm_compute; reflexivity. Qed.

(** The documented update: [nav.update_site(sites[1], 350, 450)]. *)
Example trip_after_update :
  let s := snd (update_site Scenario.B 350 450 Scenario.trip_start) in
  fst (select_sites s)
  = Ok [(Scenario.A, 100%Z); (Scenario.C, 50%Z); (Scenario.B, 150%Z)] /\
  match fst (select_sites_from_adventure_numbers [130; 500; 230]%Z s) with
  | Ok [r1; r2; r3] =>
      (r1 == 560 /\ r2 == 7850 # 9 /\ r3 == 5960 # 9)%Q
  | _ => False
  end.
Proof. cbv zeta. split; vm_compute; repeat split. Qed.

(** *** The theorems at work on the documented trip *)

Lemma select_sites_greedy_witness :
  exists res rem,
    select_sites_aux Scenario.trip_start = (Ok (res, rem), Scenario.trip_start) /\
    res = [(Scenario.A, 100%Z); (Scenario.C, 50%Z); (Scenario.B, 150%Z)] /\
    rem = 0%Z /\
    (sumZ (sent res) <= total_adventurers Scenario.trip_start)%Z.
Proof.
  destruct (select_sites_greedy Scenario.trip_start)
    as (res & rem & Haux & _ & _ & _ & _ & _ & _ & Hbound).
  assert (Hb : (0 <= total_adventurers Scenario.trip_start)%Z)
    by (vm_compute; discriminate).
  destruct (Hbound Hb) as (_ & _ & Hsum).
  assert (Hc : fst (select_sites_aux Scenario.trip_start)
               = Ok ([(Scenario.A, 100%Z); (Scenario.C, 50%Z); (Scenario.B, 150%Z)], 0%Z))
    by (vm_compute; reflexivity).
  rewrite Haux in Hc. cbn [fst] in Hc. inversion Hc; subst.
  eexists. eexists. split; [exact Haux|]. repeat split. exact Hsum.
Defined.

Lemma probing_restores_budget_witness :
  exists r s',
    select_sites_from_adventure_numbers [130; 500; 230]%Z Scenario.trip_start
    = (Ok r, s') /\
    total_adventurers s' = 300%Z.
Proof.
  destruct (proj2 (probing_restores_budget [130; 500; 230]%Z Scenario.trip_start))
    as (r & s' & Hrun & Hb).
  - vm_compute. repeat constructor; discriminate.
  - exists r, s'. split; [exact Hrun|]. rewrite Hb. reflexivity.
Defined.

Lemma selection_changes_nothing_witness :
  exists r s',
    select_sites_from_adventure_numbers [130; 500; 230]%Z Scenario.trip_start
    = (Ok r, s') /\
    s' = Scenario.trip_start.
Proof.
  destruct (select_sites_from_adventure_numbers [130; 500; 230]%Z
              Scenario.trip_start) as [[r|e] s'] eqn:E.
  - exists r, s'. split; [reflexivity|].
    exact (proj1 (proj2 (selection_changes_nothing Scenario.trip_start))
             [130; 500; 230]%Z r s' E).
  - assert (Hc : match fst (select_sites_from_adventure_numbers
                              [130; 500; 230]%Z Scenario.trip_start) with
                 | Ok _ => True
                 | Raise _ => False
                 end) by (vm_compute; exact I).
    rewrite E in Hc. destruct Hc.
Defined.

End Mode1Facts.

(** ** Mode 2 *)

Module Mode2Facts.
Import Mode2.

Section WithQueue.

Context {H : MaxHeapOps}.

Lemma compute_score_run (s : State) (site : loc) (B : Z) :
  compute_score site B s = (Ok (score_formula (lands s site) B), s).
Proof.
  unfold compute_score, score_formula, bind, try_except, get_guardians,
    get_gold, gets, pydiv, ret, raise.
  rewrite Qeq_bool_inject_Z_0.
  now destruct (guardians (lands s site) =? 0)%Z.
Qed.

(** C2. [compute_score(site, B)] returns exactly the triple of the score
    formula: [needed = min(guard_cost, B)], [reward_ob = min(needed * reward
    / guard_cost, reward)], or [0] when the guard cost is zero, [leftover =
    B - needed] and [score = 2.5 * leftover + reward_ob]; it raises nothing
    and leaves the whole state, sites and navigator, as it was. *)
Theorem compute_score_formula (s : State) (site : loc) (B : Z) :
  let needed := Z.min (guardians (lands s site)) B in
  let reward_ob :=
    if (guardians (lands s site) =? 0)%Z then 0%Q
    else Qmin (inject_Z needed * gold (lands s site)
               / inject_Z (guardians (lands s site)))
              (gold (lands s site)) in
  let leftover := (B - needed)%Z in
  compute_score site B s
  = (Ok (((5 # 2) * inject_Z leftover + reward_ob)%Q, reward_ob, leftover), s).
Proof.
  cbv zeta. rewrite compute_score_run. reflexivity.
Qed.

(** *** Building the queue *)

Lemma score_nodes_spec (B : Z) (a : list loc) (arr : list HeapNode) (s : State) :
  for_each a arr
    (fun arr site =>
       res <- compute_score site B ;;
       ret (arr ++ [mkHeapNode site (fst (fst res))])) s
  = (Ok (arr ++ map (node_for (lands s) B) a), s).
Proof.
  revert arr. induction a as [|l a IH]; intros arr; simpl.
  - now rewrite app_nil_r.
  - unfold bind at 1. unfold bind at 1. rewrite compute_score_run.
    unfold ret at 1. rewrite IH, <- app_assoc. reflexivity.
Qed.

Lemma construct_spec (B : Z) (s : State) (a : list loc) :
  sites_temp s = Some a ->
  construct_score_data_structure B s
  = (Ok (heapify (map (node_for (lands s) B) a)), s).
Proof.
  intros Ha. unfold construct_score_data_structure.
  rewrite (bind_ok _ _ s (Some a) s) by (unfold gets; now rewrite Ha).
  erewrite bind_ok by apply score_nodes_spec. reflexivity.
Qed.

Lemma construct_none (B : Z) (s : State) :
  sites_temp s = None ->
  construct_score_data_structure B s = (Raise TypeError, s).
Proof.
  intros Ha. unfold construct_score_data_structure, bind, gets.
  now rewrite Ha.
Qed.

(** *** One turn *)

Lemma attacks_dec (q : Q) (B : Z) :
  (Qgtb q ((5 # 2) * inject_Z B) = true /\ attacks q B) \/
  (Qgtb q ((5 # 2) * inject_Z B) = false /\ ~ attacks q B).
Proof.
  unfold attacks.
  destruct (Qgtb q ((5 # 2) * inject_Z B)) eqn:E.
  - left. split; [reflexivity | now apply Qgtb_true_iff].
  - right. split; [reflexivity |].
    apply Qgtb_false_iff in E. now apply Qle_not_lt.
Qed.

Lemma team_turn_empty (B : Z) res (s : State) h :
  sites s = Some h -> get_max h = None ->
  team_turn B res s = (Raise IndexError, s).
Proof.
  intros Hs Hg. unfold team_turn, sites_get_max, bind, gets.
  now rewrite Hs, Hg.
Qed.

Lemma team_turn_quiet (B : Z) res (s : State) h x h' :
  sites s = Some h -> get_max h = Some (x, h') ->
  ~ attacks (o_score x) B ->
  team_turn B res s = (Ok (res ++ [(None, 0%Z)]), with_queue s h').
Proof.
  intros Hs Hg Hq. unfold team_turn, sites_get_max, bind, gets.
  rewrite Hs, Hg. unfold assign_sites, modify, ret, get_score.
  destruct (attacks_dec (o_score x) B) as [[_ Ha]|[E _]]; [contradiction|].
  now rewrite E.
Qed.

Lemma team_turn_attack (B : Z) res (s : State) h x h' :
  sites s = Some h -> get_max h = Some (x, h') ->
  attacks (o_score x) B ->
  exists s',
    team_turn B res s
    = (Ok (res ++ [(Some (land x), Z.min (guardians (lands s (land x))) B)]), s')
    /\ lands s' (land x) = depleted (lands s (land x)) B
    /\ (forall l, l <> land x -> lands s' l = lands s l)
    /\ sites s' = Some (add h' (node_for (lands s') B (land x)))
    /\ sites_temp s' = sites_temp s
    /\ n_teams s' = n_teams s.
Proof.
  intros Hs Hg Ha. unfold team_turn, sites_get_max, bind at 1 2, gets.
  rewrite Hs, Hg. unfold bind at 1 2 3, assign_sites, modify, ret at 1, get_score.
  destruct (attacks_dec (o_score x) B) as [[E _]|[_ Hn]]; [|contradiction].
  rewrite E. unfold bind at 1. rewrite compute_score_run.
  unfold _update_site, get_land, bind, get_guardians, get_gold, gets,
    call_set_guardians, call_set_gold, modify.
  rewrite compute_score_run. unfold sites_add, bind, gets, assign_sites,
    modify, ret. cbn [sites lands sites_temp n_teams].
  assert (Hsent : (B - snd (score_formula (lands s (land x)) B))%Z
                  = Z.min (guardians (lands s (land x))) B)
    by (cbn [snd score_formula]; lia).
  eexists. split; [rewrite <- Hsent; reflexivity|split; [|split; [|split; [|split]]]].
  - cbn [lands]. rewrite !upd_same. reflexivity.
  - intros l Hl. cbn [lands]. now rewrite !upd_other.
  - cbn [sites lands]. reflexivity.
  - reflexivity.
  - reflexivity.
Qed.

Lemma team_turn_cases (B : Z) res (s : State) :
  (exists e, team_turn B res s = (Raise e, s)) \/
  (exists h x h',
      sites s = Some h /\ get_max h = Some (x, h') /\
      ~ attacks (o_score x) B /\
      team_turn B res s = (Ok (res ++ [(None, 0%Z)]), with_queue s h')) \/
  (exists h x h' s',
      sites s = Some h /\ get_max h = Some (x, h') /\
      attacks (o_score x) B /\
      team_turn B res s
      = (Ok (res ++ [(Some (land x), Z.min (guardians (lands s (land x))) B)]), s')
      /\ lands s' (land x) = depleted (lands s (land x)) B
      /\ (forall l, l <> land x -> lands s' l = lands s l)
      /\ sites s' = Some (add h' (node_for (lands s') B (land x)))
      /\ sites_temp s' = sites_temp s
      /\ n_teams s' = n_teams s).
Proof.
  destruct (sites s) as [h|] eqn:Hs.
  - destruct (get_max h) as [[x h']|] eqn:Hg.
    + destruct (attacks_dec (o_score x) B) as [[_ Ha]|[_ Hn]].
      * right; right.
        destruct (team_turn_attack B res s h x h' Hs Hg Ha) as [s' Hs'].
        exists h, x, h', s'. tauto.
      * right; left. exists h, x, h'.
        repeat split; try assumption.
        now apply (team_turn_quiet B res s h x h').
    + left. exists IndexError. now apply (team_turn_empty B res s h).
  - left. exists AttributeError.
    unfold team_turn, sites_get_max, bind, gets. now rewrite Hs.
Qed.

Lemma turns_cons (B : Z) t ts res (s : State) :
  turns B (t :: ts) res s
  = bind (team_turn B res) (fun r => turns B ts r) s.
Proof. reflexivity. Qed.

Lemma turns_step (B : Z) t ts res (s : State) r s1 :
  team_turn B res s = (Ok r, s1) ->
  turns B (t :: ts) res s = turns B ts r s1.
Proof. intros E. now rewrite turns_cons, (bind_ok _ _ _ _ _ E). Qed.

Lemma turns_length (B : Z) (ts : list Z) :
  forall res (s : State) r s',
    turns B ts res s = (Ok r, s') ->
    length r = (length res + length ts)%nat.
Proof.
  induction ts as [|t ts IH]; intros res s r s' Hrun.
  - unfold turns in Hrun; simpl in Hrun. inversion Hrun; subst. simpl; lia.
  - rewrite turns_cons in Hrun.
    destruct (team_turn_cases B res s)
      as [[e E]|[(h & x & h' & _ & _ & _ & E)|(h & x & h' & s1 & _ & _ & _ & E & _)]].
    + rewrite (bind_raise _ _ _ _ _ E) in Hrun. discriminate.
    + rewrite (bind_ok _ _ _ _ _ E) in Hrun. apply IH in Hrun.
      rewrite Hrun, length_app. simpl. lia.
    + rewrite (bind_ok _ _ _ _ _ E) in Hrun. apply IH in Hrun.
      rewrite Hrun, length_app. simpl. lia.
Qed.

(** *** What the queue's contract gives *)

Context {HL : MaxHeapLaws H}.

Lemma get_max_some h x h' :
  get_max h = Some (x, h') ->
  Permutation (entries h) (x :: entries h') /\
  Forall (fun y => node_le y x) (entries h').
Proof. intros E. pose proof (get_max_entries h) as L. now rewrite E in L. Qed.

Lemma get_max_none h : get_max h = None -> entries h = [].
Proof. intros E. pose proof (get_max_entries h) as L. now rewrite E in L. Qed.

Lemma get_max_length h x h' :
  get_max h = Some (x, h') -> length (entries h) = S (length (entries h')).
Proof.
  intros E. apply get_max_some in E as [P _].
  now rewrite (Permutation_length P).
Qed.

Lemma popped_quiet (B : Z) h x h' :
  get_max h = Some (x, h') -> ~ attacks (o_score x) B -> quiet B (entries h).
Proof.
  intros E Hx. apply get_max_some in E as [P Hle].
  unfold quiet. apply (Permutation_Forall (Permutation_sym P)).
  constructor; [exact Hx|].
  eapply Forall_impl; [|exact Hle].
  intros y Hy Hatt. apply Hx. unfold attacks, node_le in *.
  eapply Qlt_le_trans; eassumption.
Qed.

Lemma quiet_rest (B : Z) h x h' :
  get_max h = Some (x, h') -> quiet B (entries h) ->
  ~ attacks (o_score x) B /\ quiet B (entries h').
Proof.
  intros E Hq. apply get_max_some in E as [P _].
  unfold quiet in *. apply (Permutation_Forall P) in Hq.
  inversion Hq; subst. split; assumption.
Qed.

(** *** The turns after the threshold has failed *)

Lemma turns_quiet (B : Z) (ts : list Z) :
  forall res (s : State) h,
    sites s = Some h -> quiet B (entries h) ->
    (length ts <= length (entries h))%nat ->
    exists h',
      turns B ts res s
      = (Ok (res ++ repeat (None, 0%Z) (length ts)), with_queue s h').
Proof.
  induction ts as [|t ts IH]; intros res s h Hs Hq Hlen.
  - exists h. unfold turns; simpl. rewrite app_nil_r.
    destruct s; simpl in *; subst; reflexivity.
  - destruct (get_max h) as [[x h']|] eqn:E.
    + destruct (quiet_rest B _ _ _ E Hq) as [Hx Hq'].
      pose proof (get_max_length _ _ _ E) as Hl.
      destruct (IH (res ++ [(None, 0%Z)]) (with_queue s h') h')
        as [h'' Hrun]; [reflexivity | exact Hq' | simpl in Hlen; lia |].
      exists h''. unfold turns in *. simpl for_each.
      rewrite (bind_ok _ _ _ _ _ (team_turn_quiet B res s _ _ _ Hs E Hx)).
      rewrite Hrun. simpl repeat. now rewrite <- app_assoc.
    + apply get_max_none in E. rewrite E in Hlen. simpl in Hlen. lia.
Qed.

Lemma turns_starved (B : Z) (ts : list Z) :
  forall res (s : State) h,
    sites s = Some h -> quiet B (entries h) ->
    (length (entries h) < length ts)%nat ->
    exists h', turns B ts res s = (Raise IndexError, with_queue s h').
Proof.
  induction ts as [|t ts IH]; intros res s h Hs Hq Hlen.
  - simpl in Hlen. lia.
  - destruct (get_max h) as [[x h']|] eqn:E.
    + destruct (quiet_rest B _ _ _ E Hq) as [Hx Hq'].
      pose proof (get_max_length _ _ _ E) as Hl.
      destruct (IH (res ++ [(None, 0%Z)]) (with_queue s h') h')
        as [h'' Hrun]; [reflexivity | exact Hq' | simpl in Hlen; lia |].
      exists h''. unfold turns in *. simpl for_each.
      rewrite (bind_ok _ _ _ _ _ (team_turn_quiet B res s _ _ _ Hs E Hx)).
      exact Hrun.
    + exists h. unfold turns. simpl for_each.
      rewrite (bind_raise _ _ _ _ _ (team_turn_empty B res s _ Hs E)).
      destruct s; simpl in *; subst; reflexivity.
Qed.

Lemma day_split (B : Z) (s : State) (i : nat) res_i s_i :
  day_prefix B i s = (Ok res_i, s_i) ->
  simulate_day B s
  = turns B (skipn i (range (n_teams s))) res_i s_i.
Proof.
  unfold day_prefix, simulate_day. intros Hp.
  destruct (sites_temp s) as [a|] eqn:Ha.
  - rewrite (bind_ok _ _ _ _ _ (construct_spec B s a Ha)) in Hp.
    rewrite (bind_ok _ _ _ _ _ (construct_spec B s a Ha)).
    unfold bind at 1, assign_sites, modify in Hp.
    unfold bind at 1, assign_sites, modify.
    unfold bind at 1, gets in Hp. unfold bind at 1, gets.
    cbn [n_teams] in *.
    rewrite <- (firstn_skipn i (range (n_teams s))) at 1.
    rewrite for_each_app.
    now rewrite (bind_ok _ _ _ _ _ Hp).
  - rewrite (bind_raise _ _ _ _ _ (construct_none B s Ha)) in Hp. discriminate.
Qed.

Lemma day_prefix_length (B : Z) (s : State) (i : nat) res_i s_i :
  day_prefix B i s = (Ok res_i, s_i) ->
  length res_i = Nat.min i (Z.to_nat (n_teams s)).
Proof.
  unfold day_prefix. intros Hp.
  destruct (sites_temp s) as [a|] eqn:Ha.
  - rewrite (bind_ok _ _ _ _ _ (construct_spec B s a Ha)) in Hp.
    unfold bind at 1, assign_sites, modify in Hp.
    unfold bind at 1, gets in Hp. cbn [n_teams] in Hp.
    apply turns_length in Hp.
    rewrite Hp, length_firstn, range_length. reflexivity.
  - rewrite (bind_raise _ _ _ _ _ (construct_none B s Ha)) in Hp. discriminate.
Qed.

Lemma day_prefix_all (B : Z) (s : State) :
  day_prefix B (Z.to_nat (n_teams s)) s = simulate_day B s.
Proof.
  unfold day_prefix, simulate_day, bind, gets, assign_sites, modify.
  destruct (construct_score_data_structure B s) as [[h|e] s1] eqn:E;
    [|reflexivity].
  destruct (sites_temp s) as [a|] eqn:Ha.
  - rewrite (construct_spec B s a Ha) in E. inversion E; subst s1.
    cbn [n_teams]. unfold turns.
    rewrite firstn_all2 by (rewrite range_length; lia). reflexivity.
  - rewrite (construct_none B s Ha) in E. discriminate.
Qed.

(** What the code does once the threshold fails.  Let the first [i] teams
    of a day have taken their turns, with results [res_i] and state [s_i],
    and let the next entry popped fail the strict threshold
    [score > 2.5 * B].  If the queue
    holds an entry for each of the teams that remain, every one of them
    records [(None, 0)], no site is touched any more (the final state is
    [s_i] but for the queue), and the list has one entry per team.  If the
    queue holds fewer entries, the day ends in the empty-queue failure of
    the pop, still without touching any site, and no list is returned. *)
Theorem threshold_failure_is_final (B : Z) (s : State) (i : nat)
    res_i s_i h x h' :
  day_prefix B i s = (Ok res_i, s_i) ->
  sites s_i = Some h ->
  get_max h = Some (x, h') ->
  ~ attacks (o_score x) B ->
  let rest := (Z.to_nat (n_teams s) - i)%nat in
  ((rest <= length (entries h))%nat ->
   exists h'',
     simulate_day B s
     = (Ok (res_i ++ repeat (None, 0%Z) rest), with_queue s_i h'') /\
     length (res_i ++ repeat (None, 0%Z) rest) = Z.to_nat (n_teams s)) /\
  ((length (entries h) < rest)%nat ->
   exists h'', simulate_day B s = (Raise IndexError, with_queue s_i h'')).
Proof.
  intros Hp Hs Hg Hx rest.
  pose proof (popped_quiet B h x h' Hg Hx) as Hq.
  pose proof (day_prefix_length B s i res_i s_i Hp) as Hlen.
  assert (Hrest : length (skipn i (range (n_teams s))) = rest)
    by (rewrite length_skipn, range_length; reflexivity).
  rewrite (day_split B s i res_i s_i Hp).
  split; intros Hn.
  - destruct (turns_quiet B (skipn i (range (n_teams s))) res_i s_i h Hs Hq)
      as [h'' Hrun]; [lia|].
    exists h''. rewrite Hrun, Hrest. split; [reflexivity|].
    rewrite length_app, repeat_length, Hlen. subst rest. lia.
  - destruct (turns_starved B (skipn i (range (n_teams s))) res_i s_i h Hs Hq)
      as [h'' Hrun]; [lia|].
    exists h''. exact Hrun.
Qed.

(** *** Invariants of a day *)


Lemma depleted_site_ok (B : Z) (v : Land) : site_ok v -> site_ok (depleted v B).
Proof.
  unfold site_ok, depleted. cbn. intros [_ Hg]. split.
  - apply Q.le_max_l.
  - lia.
Qed.

Lemma team_turn_inv (P : Land -> Prop) (B : Z)
    (Pstable : forall v, P v -> P (depleted v B)) res (s : State) :
  sites_inv P s ->
  sites_inv P (snd (team_turn B res s)) /\
  sites_temp (snd (team_turn B res s)) = sites_temp s.
Proof.
  intros [Hb Hq].
  destruct (team_turn_cases B res s)
    as [[e E]|[(h & x & h' & Hs & Hg & _ & E)
              |(h & x & h' & s1 & Hs & Hg & _ & E & Hx & Ho & Hs1 & Ht & _)]];
    rewrite E; cbn [snd].
  - split; [split; assumption | reflexivity].
  - split; [|reflexivity]. split; [exact Hb|].
    unfold queued in *. rewrite Hs in Hq. cbn [with_queue sites].
    apply get_max_some in Hg as [Pm _].
    apply (Permutation_Forall Pm) in Hq. now inversion Hq.
  - unfold queued in Hq. rewrite Hs in Hq.
    apply get_max_some in Hg as [Pm _].
    apply (Permutation_Forall Pm) in Hq. inversion Hq as [|? ? Hin Hrest]; subst.
    split; [|exact Ht]. unfold sites_inv, buffered, queued in *.
    rewrite Ht, Hs1. split.
    + rewrite Forall_forall in *. intros l Hl.
      destruct (Nat.eq_dec l (land x)) as [->|Hne].
      * rewrite Hx. apply Pstable. now apply Hb.
      * rewrite (Ho l Hne). now apply Hb.
    + apply (Permutation_Forall (Permutation_sym (add_entries h' _))).
      constructor; assumption.
Qed.

Lemma turns_inv (P : Land -> Prop) (B : Z)
    (Pstable : forall v, P v -> P (depleted v B)) (ts : list Z) :
  forall res (s : State),
    sites_inv P s ->
    sites_inv P (snd (turns B ts res s)) /\
    sites_temp (snd (turns B ts res s)) = sites_temp s.
Proof.
  induction ts as [|t ts IH]; intros res s Hinv.
  - unfold turns; simpl. split; [assumption | reflexivity].
  - rewrite turns_cons. unfold bind.
    destruct (team_turn_inv P B Pstable res s Hinv) as [Hinv1 Ht1].
    destruct (team_turn B res s) as [[r|e] s1]; cbn [snd] in *.
    + destruct (IH r s1 Hinv1) as [Hinv2 Ht2].
      split; [assumption | congruence].
    + split; assumption.
Qed.

Lemma simulate_day_keeps (P : Land -> Prop) (B : Z)
    (Pstable : forall v, P v -> P (depleted v B)) (s : State) :
  Forall (fun l => P (lands s l)) (buffered s) ->
  sites_temp (snd (simulate_day B s)) = sites_temp s /\
  Forall (fun l => P (lands (snd (simulate_day B s)) l))
         (buffered (snd (simulate_day B s))).
Proof.
  intros Hb. unfold simulate_day.
  destruct (sites_temp s) as [a|] eqn:Ha.
  - rewrite (bind_ok _ _ _ _ _ (construct_spec B s a Ha)).
    unfold bind at 1, assign_sites, modify.
    unfold bind at 1, gets. cbn [n_teams].
    fold (turns B (range (n_teams s)) []).
    match goal with |- context [turns B ?ts ?r ?s0] =>
      destruct (turns_inv P B Pstable ts r s0) as [[Hb' _] Ht] end.
    + unfold sites_inv, buffered, queued. cbn [sites_temp lands sites].
      unfold buffered in Hb. rewrite Ha in *. split; [exact Hb|].
      apply (Permutation_Forall (Permutation_sym (heapify_entries _))).
      rewrite Forall_map. cbn [node_for land].
      rewrite Forall_forall. auto.
    + cbn [sites_temp] in Ht. split; [congruence | exact Hb'].
  - rewrite (bind_raise _ _ _ _ _ (construct_none B s Ha)). cbn [snd].
    split; [exact Ha | exact Hb].
Qed.

(** C8. A day keeps the reward and the guard cost of every buffered site
    non-negative, whatever the budget and however the day ends; and a turn
    that attacks lowers the attacked site's guard cost by exactly
    [per_round_budget - leftover], which is [min(guard_cost, B)], and its
    reward by the reward obtained with a floor of zero, touching no other
    site. *)
Theorem simulate_day_keeps_sites_nonnegative (B : Z) :
  (forall s : State,
      Forall (fun l => site_ok (lands s l)) (buffered s) ->
      buffered (snd (simulate_day B s)) = buffered s /\
      Forall (fun l => site_ok (lands (snd (simulate_day B s)) l))
             (buffered s)) /\
  (forall res (s : State) h x h',
      sites s = Some h -> get_max h = Some (x, h') ->
      attacks (o_score x) B ->
      exists r s',
        team_turn B res s = (Ok r, s') /\
        let site := lands s (land x) in
        let leftover := snd (score_formula site B) in
        let reward_obtained := snd (fst (score_formula site B)) in
        (B - leftover = Z.min (guardians site) B)%Z /\
        guardians (lands s' (land x)) = (guardians site - (B - leftover))%Z /\
        gold (lands s' (land x)) = Qmax 0 (gold site - reward_obtained) /\
        name (lands s' (land x)) = name site /\
        forall l, l <> land x -> lands s' l = lands s l).
Proof.
  split.
  - intros s Hb.
    destruct (simulate_day_keeps site_ok B (depleted_site_ok B) s Hb) as [Ht Hok].
    assert (Hbuf : buffered (snd (simulate_day B s)) = buffered s)
      by (unfold buffered; now rewrite Ht).
    rewrite Hbuf in Hok. split; assumption.
  - intros res s h x h' Hs Hg Ha.
    destruct (team_turn_attack B res s h x h' Hs Hg Ha)
      as (s' & E & Hx & Ho & _).
    eexists. exists s'. split; [exact E|].
    cbv zeta. rewrite Hx. unfold depleted. cbn [guardians gold name].
    repeat split; try reflexivity.
    + cbn [snd score_formula]. lia.
    + exact Ho.
Qed.

(** *** What the teams send *)


Lemma turns_returns (B : Z) (ts : list Z) :
  forall res (s : State) h,
    sites s = Some h ->
    (length ts <= length (entries h))%nat ->
    exists r s', turns B ts res s = (Ok r, s').
Proof.
  induction ts as [|t ts IH]; intros res s h Hs Hlen.
  - exists res, s. reflexivity.
  - destruct (get_max h) as [[x h']|] eqn:Hg.
    + destruct (attacks_dec (o_score x) B) as [[_ Ha]|[_ Hn]].
      * destruct (team_turn_attack B res s h x h' Hs Hg Ha)
          as (s1 & E & _ & _ & Hs1 & _).
        rewrite turns_cons, (bind_ok _ _ _ _ _ E).
        apply (IH _ _ _ Hs1).
        rewrite (Permutation_length (add_entries h' _)).
        rewrite (get_max_length h x h' Hg) in Hlen. simpl in *. lia.
      * destruct (turns_quiet B (t :: ts) res s h Hs
                    (popped_quiet B h x h' Hg Hn) Hlen) as [h'' E].
        eexists. eexists. exact E.
    + apply get_max_none in Hg. rewrite Hg in Hlen. simpl in Hlen. lia.
Qed.

Lemma simulate_day_returns (B : Z) (s : State) (a : list loc) :
  sites_temp s = Some a ->
  (Z.to_nat (n_teams s) <= length a)%nat ->
  exists r s',
    simulate_day B s = (Ok r, s') /\ length r = Z.to_nat (n_teams s).
Proof.
  intros Ha Hlen. unfold simulate_day.
  rewrite (bind_ok _ _ _ _ _ (construct_spec B s a Ha)).
  unfold bind at 1, assign_sites, modify.
  unfold bind at 1, gets. cbn [n_teams].
  fold (turns B (range (n_teams s)) []).
  match goal with |- context [turns B ?ts ?r ?s0] =>
    destruct (turns_returns B ts r s0 _ eq_refl) as (r' & s' & E) end.
  - rewrite range_length, (Permutation_length (heapify_entries _)), length_map.
    exact Hlen.
  - exists r', s'. split; [exact E|].
    apply turns_length in E. rewrite E, range_length. reflexivity.
Qed.


(** *** A turn whose maximum is known *)

Lemma team_turn_unique_max (B : Z) res (s : State) h m L1 L2 :
  sites s = Some h ->
  Permutation (entries h) (L1 ++ m :: L2) ->
  Forall (fun y => (o_score y < o_score m)%Q) (L1 ++ L2) ->
  attacks (o_score m) B ->
  exists s' h2,
    team_turn B res s
    = (Ok (res ++ [(Some (land m), Z.min (guardians (lands s (land m))) B)]), s')
    /\ lands s' (land m) = depleted (lands s (land m)) B
    /\ (forall l, l <> land m -> lands s' l = lands s l)
    /\ sites s' = Some h2
    /\ Permutation (entries h2) (node_for (lands s') B (land m) :: L1 ++ L2).
Proof.
  intros Hs Hp Hlt Ha.
  assert (Hp' : Permutation (entries h) (m :: L1 ++ L2))
    by (eapply perm_trans; [exact Hp | apply Permutation_sym, Permutation_middle]).
  destruct (get_max h) as [[x h']|] eqn:Hg.
  - destruct (get_max_some h x h' Hg) as [Pm Hle].
    assert (Hxm : x = m).
    { assert (Hin : In x (m :: L1 ++ L2))
        by (apply (Permutation_in x Hp'), (Permutation_in x (Permutation_sym Pm)); now left).
      destruct Hin as [->|Hin]; [reflexivity|].
      rewrite Forall_forall in Hlt. specialize (Hlt _ Hin).
      assert (Hm : In m (x :: entries h'))
        by (apply (Permutation_in m Pm), (Permutation_in m (Permutation_sym Hp')); now left).
      destruct Hm as [->|Hm]; [reflexivity|].
      rewrite Forall_forall in Hle. specialize (Hle _ Hm). unfold node_le in Hle.
      exfalso. apply (Qlt_not_le _ _ Hlt Hle). }
    subst x.
    assert (Pr : Permutation (entries h') (L1 ++ L2))
      by (apply (Permutation_cons_inv (a := m)), (perm_trans (Permutation_sym Pm) Hp')).
    destruct (team_turn_attack B res s h m h' Hs Hg Ha)
      as (s' & E & Hx & Ho & Hs' & _).
    exists s', (add h' (node_for (lands s') B (land m))).
    repeat split; try assumption.
    eapply perm_trans; [apply add_entries|]. now apply perm_skip.
  - apply get_max_none in Hg. rewrite Hg in Hp'.
    now apply Permutation_nil_cons in Hp'.
Qed.

End WithQueue.

(** *** The list queue meets the contract *)

Lemma extract_max_spec (l : list HeapNode) :
  match extract_max l with
  | None => l = []
  | Some (x, r) => Permutation l (x :: r) /\ Forall (fun y => node_le y x) r
  end.
Proof.
  induction l as [|x l IH]; simpl; [reflexivity|].
  destruct (extract_max l) as [[y r]|].
  - destruct IH as [P Hle].
    destruct (Qle_bool (o_score y) (o_score x)) eqn:E.
    + apply Qle_bool_iff in E. split; [apply Permutation_refl|].
      apply (Permutation_Forall (Permutation_sym P)).
      constructor; [exact E|].
      eapply Forall_impl; [|exact Hle].
      intros z Hz. unfold node_le in *. eapply Qle_trans; eassumption.
    + split.
      * eapply perm_trans; [apply perm_skip, P | apply perm_swap].
      * constructor; [|exact Hle].
        unfold node_le. apply Qlt_le_weak, Qnot_le_lt.
        intros Hc. apply Qle_bool_iff in Hc. congruence.
  - subst l. split; [apply Permutation_refl | constructor].
Qed.

Lemma ListHeap_laws : MaxHeapLaws ListHeap.
Proof.
  constructor.
  - intros l. apply Permutation_refl.
  - intros h x. apply Permutation_refl.
  - intros h. apply extract_max_spec.
Qed.

(** *** The day of the documentation *)

Section DocumentedDay.

Context {H : MaxHeapOps} {HL : MaxHeapLaws H}.

Lemma day_start_eq :
  Scenario.day_start
  = mkState Scenario.day_store None
      (Some [Scenario.A; Scenario.B; Scenario.C]) 5.
Proof. reflexivity. Qed.

Ltac score_facts :=
  repeat match goal with
         | |- Forall _ (_ ++ _) => cbn [app]
         | |- Forall _ [] => constructor
         | |- Forall _ (_ :: _) => constructor
         | |- (_ < _)%Q => vm_compute; reflexivity
         | |- attacks _ _ => vm_compute; reflexivity
         | |- ~ attacks _ _ => vm_compute; discriminate
         end.

(** C4. With five teams and the sites [A(400, 100)], [B(750, 120)] and
    [C(200, 30)], [simulate_day(100)] returns
    [[(B, 100), (A, 100), (C, 30), (B, 20), (None, 0)]], whatever the queue
    does with entries of equal score; the three sites end with no reward
    and no guards, as the documentation of the class shows. *)
Theorem documented_day :
  exists s',
    simulate_day 100 Scenario.day_start
    = (Ok [(Some Scenario.B, 100%Z); (Some Scenario.A, 100%Z);
           (Some Scenario.C, 30%Z); (Some Scenario.B, 20%Z); (None, 0%Z)], s')
    /\ Forall (fun l => (gold (lands s' l) == 0)%Q /\ guardians (lands s' l) = 0%Z)
              [Scenario.A; Scenario.B; Scenario.C].
Proof.
  rewrite day_start_eq. unfold simulate_day.
  rewrite (bind_ok _ _ _ _ _
             (construct_spec 100
                (mkState Scenario.day_store None
                   (Some [Scenario.A; Scenario.B; Scenario.C]) 5)
                [Scenario.A; Scenario.B; Scenario.C] eq_refl)).
  unfold bind at 1, assign_sites, modify.
  unfold bind at 1, gets.
  cbn [n_teams lands sites sites_temp map].
  change (range 5) with [0%Z; 1%Z; 2%Z; 3%Z; 4%Z].
  fold (turns 100 [0%Z; 1%Z; 2%Z; 3%Z; 4%Z] []).
  set (s0 := mkState _ _ _ _).
  pose proof (heapify_entries
    [node_for Scenario.day_store 100 Scenario.A;
     node_for Scenario.day_store 100 Scenario.B;
     node_for Scenario.day_store 100 Scenario.C]) as P0.
  (* team 1 takes B *)
  destruct (team_turn_unique_max 100 [] s0 _
              (node_for Scenario.day_store 100 Scenario.B)
              [node_for Scenario.day_store 100 Scenario.A]
              [node_for Scenario.day_store 100 Scenario.C] eq_refl P0)
    as (s1 & h1 & E1 & HB1 & Ho1 & Hs1 & P1); [score_facts | score_facts |].
  clear P0.
  cbn [land node_for] in E1, HB1, Ho1. unfold node_for in P1. cbn [land app] in P1.
  assert (HA1 : lands s1 Scenario.A = Scenario.day_store Scenario.A)
    by (apply Ho1; discriminate).
  assert (HC1 : lands s1 Scenario.C = Scenario.day_store Scenario.C)
    by (apply Ho1; discriminate).
  change (lands s0 Scenario.B) with (Scenario.day_store Scenario.B) in HB1.
  rewrite HB1 in P1. clear Ho1.
  (* team 2 takes A *)
  destruct (team_turn_unique_max 100
              ([] ++ [(Some Scenario.B, Z.min (guardians (lands s0 Scenario.B)) 100)])
              s1 h1
              (node_for Scenario.day_store 100 Scenario.A)
              [mkHeapNode Scenario.B
                 (fst (fst (score_formula
                    (depleted (Scenario.day_store Scenario.B) 100) 100)))]
              [node_for Scenario.day_store 100 Scenario.C] Hs1 P1)
    as (s2 & h2 & E2 & HA2 & Ho2 & Hs2 & P2); [score_facts | score_facts |].
  clear P1.
  cbn [land node_for] in E2, HA2, Ho2. unfold node_for in P2. cbn [land app] in P2.
  assert (HB2 : lands s2 Scenario.B = depleted (Scenario.day_store Scenario.B) 100)
    by (rewrite Ho2, HB1 by discriminate; reflexivity).
  assert (HC2 : lands s2 Scenario.C = Scenario.day_store Scenario.C)
    by (rewrite Ho2, HC1 by discriminate; reflexivity).
  rewrite HA1 in HA2. rewrite HA2 in P2. clear Ho2.
  (* team 3 takes C *)
  destruct (team_turn_unique_max 100
              (([] ++ [(Some Scenario.B, Z.min (guardians (lands s0 Scenario.B)) 100)])
                 ++ [(Some Scenario.A, Z.min (guardians (lands s1 Scenario.A)) 100)])
              s2 h2
              (node_for Scenario.day_store 100 Scenario.C)
              [mkHeapNode Scenario.A
                 (fst (fst (score_formula
                    (depleted (Scenario.day_store Scenario.A) 100) 100)));
               mkHeapNode Scenario.B
                 (fst (fst (score_formula
                    (depleted (Scenario.day_store Scenario.B) 100) 100)))]
              [] Hs2 P2)
    as (s3 & h3 & E3 & HC3 & Ho3 & Hs3 & P3); [score_facts | score_facts |].
  clear P2.
  cbn [land node_for] in E3, HC3, Ho3. unfold node_for in P3. cbn [land app] in P3.
  assert (HA3 : lands s3 Scenario.A = depleted (Scenario.day_store Scenario.A) 100)
    by (rewrite Ho3, HA2 by discriminate; reflexivity).
  assert (HB3 : lands s3 Scenario.B = depleted (Scenario.day_store Scenario.B) 100)
    by (rewrite Ho3, HB2 by discriminate; reflexivity).
  rewrite HC2 in HC3. rewrite HC3 in P3. clear Ho3.
  (* team 4 takes B again *)
  destruct (team_turn_unique_max 100
              ((([] ++ [(Some Scenario.B, Z.min (guardians (lands s0 Scenario.B)) 100)])
                  ++ [(Some Scenario.A, Z.min (guardians (lands s1 Scenario.A)) 100)])
                 ++ [(Some Scenario.C, Z.min (guardians (lands s2 Scenario.C)) 100)])
              s3 h3
              (mkHeapNode Scenario.B
                 (fst (fst (score_formula
                    (depleted (Scenario.day_store Scenario.B) 100) 100))))
              [mkHeapNode Scenario.C
                 (fst (fst (score_formula
                    (depleted (Scenario.day_store Scenario.C) 100) 100)));
               mkHeapNode Scenario.A
                 (fst (fst (score_formula
                    (depleted (Scenario.day_store Scenario.A) 100) 100)))]
              [] Hs3 P3)
    as (s4 & h4 & E4 & HB4 & Ho4 & Hs4 & P4); [score_facts | score_facts |].
  clear P3.
  cbn [land node_for] in E4, HB4, Ho4. unfold node_for in P4. cbn [land app] in P4.
  assert (HA4 : lands s4 Scenario.A = depleted (Scenario.day_store Scenario.A) 100)
    by (rewrite Ho4, HA3 by discriminate; reflexivity).
  assert (HC4 : lands s4 Scenario.C = depleted (Scenario.day_store Scenario.C) 100)
    by (rewrite Ho4, HC3 by discriminate; reflexivity).
  rewrite HB3 in HB4. rewrite HB4 in P4. clear Ho4.
  (* team 5 finds nothing worth an attack *)
  destruct (turns_quiet 100 [4%Z]
              (((([] ++ [(Some Scenario.B, Z.min (guardians (lands s0 Scenario.B)) 100)])
                   ++ [(Some Scenario.A, Z.min (guardians (lands s1 Scenario.A)) 100)])
                  ++ [(Some Scenario.C, Z.min (guardians (lands s2 Scenario.C)) 100)])
                 ++ [(Some Scenario.B, Z.min (guardians (lands s3 Scenario.B)) 100)])
              s4 h4 Hs4) as [h5 E5].
  - unfold quiet. apply (Permutation_Forall (Permutation_sym P4)). score_facts.
  - rewrite (Permutation_length P4). simpl. lia.
  - exists (with_queue s4 h5). split.
    + rewrite (turns_step _ _ _ _ _ _ _ E1), (turns_step _ _ _ _ _ _ _ E2),
        (turns_step _ _ _ _ _ _ _ E3), (turns_step _ _ _ _ _ _ _ E4), E5.
      rewrite HA1, HC2, HB3.
      change (lands s0 Scenario.B) with (Scenario.day_store Scenario.B).
      reflexivity.
    + cbn [with_queue lands].
      repeat (apply Forall_cons || apply Forall_nil);
        rewrite ?HA4, ?HB4, ?HC4; split; vm_compute; reflexivity.
Qed.

End DocumentedDay.

(** *** A day that drains the queue *)

Section DrainedDay.

Context {H : MaxHeapOps} {HL : MaxHeapLaws H}.

Local Abbreviation D := Scenario.D.
Local Abbreviation lone_store := Scenario.lone_store.
Local Abbreviation lone_start := Scenario.lone_start.

Ltac score_facts :=
  repeat match goal with
         | |- Forall _ (_ ++ _) => cbn [app]
         | |- Forall _ [] => constructor
         | |- Forall _ (_ :: _) => constructor
         | |- (_ < _)%Q => vm_compute; reflexivity
         | |- attacks _ _ => vm_compute; reflexivity
         | |- ~ attacks _ _ => vm_compute; discriminate
         end.

(** The three attacks a single site [D(980, 230)] takes at a budget of 80:
    they send 80, 80 and 70 adventurers and leave the site empty, with a
    score of just the threshold. *)
Lemma lone_turns :
  exists s3 h3,
    (forall ts,
        turns 80 (0%Z :: 1%Z :: 2%Z :: ts) []
          (mkState lone_store (Some (heapify [node_for lone_store 80 D]))
             (Some [D]) 5)
        = turns 80 ts [(Some D, 80%Z); (Some D, 80%Z); (Some D, 70%Z)] s3) /\
    sites s3 = Some h3 /\
    quiet 80 (entries h3) /\
    length (entries h3) = 1%nat /\
    (gold (lands s3 D) == 0)%Q /\ guardians (lands s3 D) = 0%Z.
Proof.
  set (s0 := mkState _ _ _ _).
  pose proof (heapify_entries [node_for lone_store 80 D]) as P0.
  destruct (team_turn_unique_max 80 [] s0 _ (node_for lone_store 80 D)
              [] [] eq_refl P0)
    as (s1 & h1 & E1 & HD1 & _ & Hs1 & P1); [score_facts | score_facts |].
  clear P0.
  cbn [land node_for] in E1, HD1. unfold node_for in P1. cbn [land app] in P1.
  change (lands s0 D) with (lone_store D) in HD1, E1.
  rewrite HD1 in P1.
  destruct (team_turn_unique_max 80
              ([] ++ [(Some D, Z.min (guardians (lone_store D)) 80)])
              s1 h1
              (mkHeapNode D
                 (fst (fst (score_formula (depleted (lone_store D) 80) 80))))
              [] [] Hs1 P1)
    as (s2 & h2 & E2 & HD2 & _ & Hs2 & P2); [score_facts | score_facts |].
  clear P1.
  cbn [land] in E2, HD2. unfold node_for in P2. cbn [land app] in P2.
  rewrite HD1 in HD2, E2. rewrite HD2 in P2.
  destruct (team_turn_unique_max 80
              (([] ++ [(Some D, Z.min (guardians (lone_store D)) 80)])
                 ++ [(Some D,
                      Z.min (guardians (depleted (lone_store D) 80)) 80)])
              s2 h2
              (mkHeapNode D
                 (fst (fst (score_formula
                    (depleted (depleted (lone_store D) 80) 80) 80))))
              [] [] Hs2 P2)
    as (s3 & h3 & E3 & HD3 & _ & Hs3 & P3); [score_facts | score_facts |].
  clear P2.
  cbn [land] in E3, HD3. unfold node_for in P3. cbn [land app] in P3.
  rewrite HD2 in HD3, E3. rewrite HD3 in P3.
  exists s3, h3. split; [|split; [exact Hs3|split; [|split; [|split]]]].
  - intros ts.
    rewrite (turns_step _ _ _ _ _ _ _ E1), (turns_step _ _ _ _ _ _ _ E2),
      (turns_step _ _ _ _ _ _ _ E3).
    reflexivity.
  - unfold quiet. apply (Permutation_Forall (Permutation_sym P3)). score_facts.
  - now rewrite (Permutation_length P3).
  - rewrite HD3. vm_compute. reflexivity.
  - rewrite HD3. vm_compute. reflexivity.
Qed.

(** C1, where the code departs from the claim: with five teams and the
    single site [D(980, 230)], [simulate_day(80)] lets three teams attack;
    the fourth team pops the site at a score of 200, which is not above
    the threshold of 200, and records [(None, 0)]; the entry is not put
    back, so the fifth team finds the queue empty, the pop fails, and the
    call raises [IndexError] after it has emptied the site, instead of
    returning a list of five pairs that ends in two [(None, 0)]. *)
Theorem drained_queue_faults :
  exists s4 s',
    day_prefix 80 4 lone_start
    = (Ok [(Some D, 80%Z); (Some D, 80%Z); (Some D, 70%Z); (None, 0%Z)], s4) /\
    n_teams lone_start = 5%Z /\
    simulate_day 80 lone_start = (Raise IndexError, s') /\
    (gold (lands s' D) == 0)%Q /\ guardians (lands s' D) = 0%Z.
Proof.
  destruct lone_turns as (s3 & h3 & Hrun & Hs3 & Hq & Hlen & Hg & Hgu).
  assert (Hstart : lone_start = mkState lone_store None (Some [D]) 5)
    by reflexivity.
  destruct (turns_quiet 80 [3%Z]
              [(Some D, 80%Z); (Some D, 80%Z); (Some D, 70%Z)] s3 h3 Hs3 Hq)
    as [h4 E4]; [rewrite Hlen; simpl; lia|].
  destruct (turns_starved 80 [3%Z; 4%Z]
              [(Some D, 80%Z); (Some D, 80%Z); (Some D, 70%Z)] s3 h3 Hs3 Hq)
    as [h5 E5]; [rewrite Hlen; simpl; lia|].
  exists (with_queue s3 h4), (with_queue s3 h5).
  split; [|split; [reflexivity|split; [|split; assumption]]].
  - rewrite Hstart. unfold day_prefix.
    rewrite (bind_ok _ _ _ _ _
               (construct_spec 80 (mkState lone_store None (Some [D]) 5)
                  [D] eq_refl)).
    unfold bind at 1, assign_sites, modify. unfold bind at 1, gets.
    cbn [n_teams lands sites sites_temp map].
    change (firstn 4 (range 5)) with [0%Z; 1%Z; 2%Z; 3%Z].
    rewrite Hrun. exact E4.
  - rewrite Hstart. unfold simulate_day.
    rewrite (bind_ok _ _ _ _ _
               (construct_spec 80 (mkState lone_store None (Some [D]) 5)
                  [D] eq_refl)).
    unfold bind at 1, assign_sites, modify. unfold bind at 1, gets.
    cbn [n_teams lands sites sites_temp map].
    change (range 5) with [0%Z; 1%Z; 2%Z; 3%Z; 4%Z].
    fold (turns 80 [0%Z; 1%Z; 2%Z; 3%Z; 4%Z] []).
    rewrite Hrun. exact E5.
Qed.

End DrainedDay.

Lemma drained_queue_faults_witness :
  exists s4 s',
    @day_prefix ListHeap 80 4 Scenario.lone_start
    = (Ok [(Some Scenario.D, 80%Z); (Some Scenario.D, 80%Z);
           (Some Scenario.D, 70%Z); (None, 0%Z)], s4) /\
    n_teams (@Scenario.lone_start ListHeap) = 5%Z /\
    @simulate_day ListHeap 80 Scenario.lone_start = (Raise IndexError, s') /\
    (gold (lands s' Scenario.D) == 0)%Q /\
    guardians (lands s' Scenario.D) = 0%Z.
Proof. exact (@drained_queue_faults ListHeap ListHeap_laws). Defined.

(** *** The theorems at work on the list queue *)

Lemma documented_day_witness :
  exists s',
    @simulate_day ListHeap 100 Scenario.day_start
    = (Ok [(Some Scenario.B, 100%Z); (Some Scenario.A, 100%Z);
           (Some Scenario.C, 30%Z); (Some Scenario.B, 20%Z); (None, 0%Z)], s')
    /\ Forall (fun l => (gold (lands s' l) == 0)%Q /\ guardians (lands s' l) = 0%Z)
              [Scenario.A; Scenario.B; Scenario.C].
Proof. exact (@documented_day ListHeap ListHeap_laws). Defined.

(** The fifth team of the documented day pops an entry of score 250, which
    is not above the threshold of 250: it records [(None, 0)]. *)
Lemma threshold_failure_is_final_witness :
  exists res_i s_i h x h',
    @day_prefix ListHeap 100 4 Scenario.day_start = (Ok res_i, s_i) /\
    sites s_i = Some h /\
    get_max h = Some (x, h') /\
    ~ attacks (o_score x) 100 /\
    exists h'',
      @simulate_day ListHeap 100 Scenario.day_start
      = (Ok (res_i ++ repeat (None, 0%Z) 1), with_queue s_i h'') /\
      length (res_i ++ repeat (None, 0%Z) 1) = 5%nat.
Proof.
  do 5 eexists.
  split; [vm_compute; reflexivity|].
  split; [reflexivity|].
  split; [vm_compute; reflexivity|].
  split; [vm_compute; discriminate|].
  refine (proj1 (@threshold_failure_is_final ListHeap ListHeap_laws 100
                   Scenario.day_start 4 _ _ _ _ _ _ _ _ _) _).
  - vm_compute; reflexivity.
  - reflexivity.
  - vm_compute; reflexivity.
  - vm_compute; discriminate.
  - vm_compute. repeat constructor.
Defined.

(** A day before any site was added: [len(None)] fails. *)
Example simulate_day_without_sites :
  fst (@simulate_day ListHeap 100 (init Scenario.day_store 5)) = Raise TypeError.
Proof. reflexivity. Qed.

(** The day after the documented one: [nav.add_sites([Land('D', 980, 230)])]
    on the depleted sites, then [nav.simulate_day(80)]. *)
Example documented_second_day :
  let depleted_store : store :=
    fun l => match l with
             | 3%nat => mkLand "D" 980 230
             | 0%nat => mkLand "A" 0 0
             | 1%nat => mkLand "B" 0 0
             | _ => mkLand "C" 0 0
             end in
  let s : @State ListHeap :=
    snd (add_sites [3%nat]
           (mkState depleted_store None
              (Some [Scenario.A; Scenario.B; Scenario.C]) 5)) in
  fst (simulate_day 80 s)
  = Ok [(Some 3%nat, 80%Z); (Some 3%nat, 80%Z); (Some 3%nat, 70%Z);
        (None, 0%Z); (None, 0%Z)].
Proof. vm_compute. reflexivity. Qed.

(** The same fault on a second input: with one buffered site that is not
    worth an attack and two teams, the first team pops the only entry and
    records [(None, 0)]; at the second team's turn the queue is empty, the
    pop fails, and [simulate_day] raises instead of returning a list of
    two entries. *)
Lemma empty_queue_counterexample :
  fst (@simulate_day ListHeap 10 Scenario.poor_start) = Raise IndexError /\
  ~ (exists res s',
        @simulate_day ListHeap 10 Scenario.poor_start = (Ok res, s') /\
        length res = Z.to_nat (n_teams Scenario.poor_start)).
Proof.
  assert (E : fst (@simulate_day ListHeap 10 Scenario.poor_start)
              = Raise IndexError) by (vm_compute; reflexivity).
  split; [exact E|].
  intros (res & s' & Hrun & _). rewrite Hrun in E. discriminate.
Qed.

Lemma simulate_day_keeps_sites_nonnegative_witness :
  let s := @Scenario.day_start ListHeap in
  Forall (fun l => site_ok (lands s l)) (buffered s) /\
  buffered (snd (simulate_day 100 s)) = buffered s /\
  Forall (fun l => site_ok (lands (snd (simulate_day 100 s)) l)) (buffered s).
Proof.
  intros s.
  assert (Hb : Forall (fun l => site_ok (lands s l)) (buffered s)).
  { repeat constructor; cbn; try lia; unfold Qle; cbn; lia. }
  split; [exact Hb|].
  exact (proj1 (@simulate_day_keeps_sites_nonnegative ListHeap ListHeap_laws 100)
           s Hb).
Defined.


End Mode2Facts.

(** ** Mode 2: the rest of the navigator *)

Module Mode2More.
Import Mode2 Mode2Facts.

(** *** The comparisons of heap nodes *)

Lemma Qeq_bool_compare (x y : Q) :
  Qeq_bool x y = match (x ?= y)%Q with Eq => true | _ => false end.
Proof.
  unfold Qeq_bool, Qcompare.
  destruct (Z.compare_spec (Qnum x * QDen y) (Qnum y * QDen x)) as [E|E|E].
  - now apply Z.eqb_eq.
  - apply Z.eqb_neq. lia.
  - apply Z.eqb_neq. lia.
Qed.

Lemma Qle_bool_compare (x y : Q) :
  Qle_bool x y = match (x ?= y)%Q with Gt => false | _ => true end.
Proof. reflexivity. Qed.

(** X1. The six comparison methods of a heap node agree with one another:
    exactly one of [a < b], [a == b], [a > b] holds; [<=] is the negation
    of [>], [>=] that of [<], [!=] that of [==]; [>] and [>=] are [<] and
    [<=] with the operands exchanged; and none of them looks at the site:
    two nodes for different sites with one score are [==]. *)
Theorem node_comparisons_agree (a b : HeapNode) :
  ((node_ltb a b = true /\ node_eq a b = false /\ node_gtb a b = false) \/
   (node_ltb a b = false /\ node_eq a b = true /\ node_gtb a b = false) \/
   (node_ltb a b = false /\ node_eq a b = false /\ node_gtb a b = true)) /\
  node_leb a b = negb (node_gtb a b) /\
  node_geb a b = negb (node_ltb a b) /\
  node_ne a b = negb (node_eq a b) /\
  node_gtb a b = node_ltb b a /\
  node_geb a b = node_leb b a /\
  (node_leb a b = true <-> node_le a b) /\
  (forall l1 l2 q, node_eq (mkHeapNode l1 q) (mkHeapNode l2 q) = true).
Proof.
  unfold node_ltb, node_eq, node_gtb, node_leb, node_geb, node_ne, node_le,
    Qltb, Qgtb.
  rewrite !Qeq_bool_compare, !Qle_bool_compare.
  rewrite <- (Qcompare_antisym (o_score a) (o_score b)).
  split; [|split; [|split; [|split; [|split; [|split; [|split]]]]]].
  - destruct (o_score a ?= o_score b)%Q; cbn; tauto.
  - now destruct (o_score a ?= o_score b)%Q.
  - now destruct (o_score a ?= o_score b)%Q.
  - reflexivity.
  - now destruct (o_score a ?= o_score b)%Q.
  - now destruct (o_score a ?= o_score b)%Q.
  - rewrite Qle_alt.
    destruct (o_score a ?= o_score b)%Q; cbn; split; congruence.
  - intros l1 l2 q. cbn. apply Qeq_bool_refl.
Qed.

(** *** The buffer array *)

Section ArrayLoops.

Import Arrays.

Lemma array_setitem_at (pre : ArrayR) (c v : option loc) (post : ArrayR) :
  array_setitem (pre ++ c :: post) (Z.of_nat (length pre)) v
  = Ok (pre ++ v :: post).
Proof.
  unfold array_setitem, array_len.
  assert (E : ((Z.of_nat (length pre) <? 0)
               || (Z.of_nat (length (pre ++ c :: post))
                   <=? Z.of_nat (length pre)))%Z%bool = false).
  { apply Bool.orb_false_iff. split.
    - apply Z.ltb_ge. lia.
    - apply Z.leb_gt. rewrite length_app. simpl. lia. }
  rewrite E, Nat2Z.id.
  rewrite firstn_app, firstn_all, Nat.sub_diag. simpl firstn.
  rewrite app_nil_r.
  replace (S (length pre)) with (length pre + 1)%nat by lia.
  rewrite skipn_app, skipn_all2 by lia.
  replace (length pre + 1 - length pre)%nat with 1%nat by lia.
  reflexivity.
Qed.

(** A loop that stores the cells [todo], one by one, behind [pre] and the
    cells [done] stored before. *)
Lemma fill_loop (body : unit -> Z -> M (option ArrayR) unit) (pre : ArrayR) :
  forall (todo done post : ArrayR),
    (forall j c, nth_error (done ++ todo) j = Some c ->
                 forall a,
                   body tt (Z.of_nat j) (Some a)
                   = sites_temp_setitem (Z.of_nat (length pre + j)) c
                       (Some a)) ->
    for_each (map Z.of_nat (seq (length done) (length todo))) tt body
      (@Some ArrayR (pre ++ done ++ repeat None (length todo) ++ post))
    = (Ok tt, @Some ArrayR (pre ++ (done ++ todo) ++ post)).
Proof.
  induction todo as [|c todo IH]; intros done post Hbody.
  - simpl. now rewrite app_nil_r.
  - cbn [length seq map for_each repeat].
    unfold bind at 1.
    rewrite (Hbody (length done) c)
      by (rewrite nth_error_app2, Nat.sub_diag by lia; reflexivity).
    unfold sites_temp_setitem at 1.
    replace (pre ++ done ++ (None :: repeat None (length todo)) ++ post)
      with ((pre ++ done) ++ None :: (repeat None (length todo) ++ post))
      by (now rewrite <- !app_assoc).
    rewrite <- length_app, array_setitem_at.
    specialize (IH (done ++ [c]) post).
    rewrite length_app in IH. simpl length in IH.
    rewrite Nat.add_1_r in IH.
    replace ((pre ++ done) ++ c :: repeat None (length todo) ++ post)
      with (pre ++ (done ++ [c]) ++ repeat None (length todo) ++ post)
      by (rewrite <- !app_assoc; reflexivity).
    transitivity
      (@Ok unit tt, @Some ArrayR (pre ++ ((done ++ [c]) ++ todo) ++ post)).
    + apply IH.
      intros j c' Hj. apply Hbody. now rewrite <- app_assoc in Hj.
    + now rewrite <- !app_assoc.
Qed.

Lemma getitem_at {S A} (l : list A) (j : nat) (x : A) (s : S) :
  nth_error l j = Some x -> getitem l (Z.of_nat j) s = (Ok x, s).
Proof.
  intros Hn. unfold getitem.
  assert (E : (Z.of_nat j <? 0)%Z = false) by (apply Z.ltb_ge; lia).
  rewrite E, E, Nat2Z.id, Hn. reflexivity.
Qed.

Lemma array_getitem_at {S} (a : ArrayR) (j : nat) (c : option loc) (s : S) :
  nth_error a j = Some c -> array_getitem a (Z.of_nat j) s = (Ok c, s).
Proof.
  intros Hn. unfold array_getitem, array_len.
  assert (Hlt : (j < length a)%nat) by (apply nth_error_Some; congruence).
  assert (E : ((Z.of_nat j <? 0) || (Z.of_nat (length a) <=? Z.of_nat j))%Z%bool
              = false).
  { apply Bool.orb_false_iff. split; [apply Z.ltb_ge | apply Z.leb_gt]; lia. }
  rewrite E, Nat2Z.id, Hn. reflexivity.
Qed.

Lemma nth_error_full (l : list loc) (j : nat) (c : option loc) :
  nth_error (full l) j = Some c ->
  exists x, c = Some x /\ nth_error l j = Some x.
Proof.
  unfold full. rewrite nth_error_map.
  destruct (nth_error l j) as [x|]; [|discriminate].
  intros E. inversion E. now exists x.
Qed.

Lemma length_full (l : list loc) : length (full l) = length l.
Proof. apply length_map. Qed.

(** The first branch: nothing was added before. *)
Lemma add_sites_first (alloc : Z -> outcome ArrayR) (new_sites : list loc)
    (field : option ArrayR) :
  (forall n, (0 < n)%Z -> alloc n = Ok (repeat None (Z.to_nat n))) ->
  new_sites <> [] ->
  (new_sites_temp alloc (Z.of_nat (length new_sites)) ;;
   n <- sites_temp_len ;;
   for_each (range n) tt
     (fun _ i =>
        x <- getitem new_sites i ;;
        sites_temp_setitem i (Some x))) field
  = (Ok tt, Some (full new_sites)).
Proof.
  intros Halloc Hn.
  assert (Hpos : (0 < Z.of_nat (length new_sites))%Z)
    by (destruct new_sites; [contradiction | simpl; lia]).
  unfold bind at 1. unfold new_sites_temp.
  rewrite (Halloc _ Hpos), Nat2Z.id.
  unfold bind at 1. unfold sites_temp_len, array_len. rewrite repeat_length.
  unfold range. rewrite Nat2Z.id.
  pose proof (fill_loop
                (fun _ i => x <- getitem new_sites i ;;
                            sites_temp_setitem i (Some x))
                [] (full new_sites) [] []) as F.
  rewrite !length_full in F.
  cbn [app length] in F. rewrite !app_nil_r in F. apply F.
  intros j c Hj a. apply nth_error_full in Hj as (x & -> & Hx).
  unfold bind. now rewrite (getitem_at _ _ _ _ Hx).
Qed.

Lemma add_sites_run (alloc : Z -> outcome ArrayR) (buffer : option (list loc))
    (new_sites : list loc) :
  (forall n, (0 < n)%Z -> alloc n = Ok (repeat None (Z.to_nat n))) ->
  match buffer with Some a => a | None => [] end ++ new_sites <> [] ->
  add_sites alloc new_sites (option_map full buffer)
  = (Ok tt,
     Some (full (match buffer with Some a => a | None => [] end
                 ++ new_sites))).
Proof.
  intros Halloc Hne.
  unfold add_sites, not_sites_temp. unfold bind at 1, gets.
  destruct buffer as [[|l old]|]; cbn [option_map full map array_len length].
  - (* an array without cells *)
    change (Z.of_nat 0 =? 0)%Z with true. cbv iota.
    now apply add_sites_first.
  - (* sites were added before *)
    set (old_array := Some l :: map Some old).
    assert (Hlen : length old_array = S (length old))
      by (unfold old_array; simpl; now rewrite length_map).
    assert (E : (array_len old_array =? 0)%Z = false)
      by (apply Z.eqb_neq; unfold array_len; lia).
    rewrite E. unfold bind at 1.
    unfold bind at 1. unfold new_sites_temp.
    rewrite Halloc by (unfold array_len; lia).
    replace (Z.to_nat (array_len old_array + Z.of_nat (length new_sites)))
      with (length old_array + length new_sites)%nat
      by (unfold array_len; lia).
    rewrite repeat_app.
    unfold bind at 1.
    unfold range, array_len. rewrite !Nat2Z.id.
    pose proof (fill_loop
                  (fun _ i => c <- array_getitem old_array i ;;
                              sites_temp_setitem i c)
                  [] old_array [] (repeat None (length new_sites))) as F1.
    cbn [app length] in F1.
    rewrite F1.
    + pose proof (fill_loop
                    (fun _ i =>
                       x <- getitem new_sites i ;;
                       sites_temp_setitem
                         (Z.of_nat (length old_array) + i)%Z (Some x))
                    old_array (full new_sites) [] []) as F2.
      rewrite !length_full in F2.
      cbn [app length] in F2. rewrite !app_nil_r in F2.
      rewrite F2.
      * unfold old_array, full. cbn [app map]. now rewrite map_app.
      * intros j c Hj a. apply nth_error_full in Hj as (x & -> & Hx).
        unfold bind. rewrite (getitem_at _ _ _ _ Hx).
        now rewrite Nat2Z.inj_add.
    + intros j c Hj a. unfold bind.
      now rewrite (array_getitem_at _ _ _ _ Hj).
  - cbv iota. apply add_sites_first; [exact Halloc|].
    cbn [app] in Hne. exact Hne.
Qed.

End ArrayLoops.

Section WithQueue.

Context {H : MaxHeapOps}.

(** *** Adding sites *)

(** X2. [add_sites] with its allocation and its index loops, run cell by
    cell on the array.  Let the allocation of a positive length give an
    array of that many empty cells, and let the cells of the buffer hold
    the sites added so far.  Unless both the buffer and the list are empty,
    [add_sites] returns and leaves an array of the right length in which
    every cell is set: the old sites in their order, then the new sites in
    theirs.  That array is the buffer the list-level [add_sites] of the
    navigator's state leaves.  Adding a second list afterwards leaves the
    array that adding the concatenation of the two lists leaves. *)
Theorem add_sites_fills_array (alloc : Z -> outcome Arrays.ArrayR)
    (s : State) (new_sites : list loc) :
  (forall n, (0 < n)%Z -> alloc n = Ok (repeat None (Z.to_nat n))) ->
  buffered s ++ new_sites <> [] ->
  Arrays.add_sites alloc new_sites (option_map Arrays.full (sites_temp s))
  = (Ok tt, Some (Arrays.full (buffered s ++ new_sites))) /\
  snd (Arrays.add_sites alloc new_sites
         (option_map Arrays.full (sites_temp s)))
  = option_map Arrays.full (sites_temp (snd (add_sites new_sites s))) /\
  (forall more,
      Arrays.add_sites alloc more
        (snd (Arrays.add_sites alloc new_sites
                (option_map Arrays.full (sites_temp s))))
      = Arrays.add_sites alloc (new_sites ++ more)
          (option_map Arrays.full (sites_temp s))).
Proof.
  intros Halloc Hne.
  pose proof (add_sites_run alloc (sites_temp s) new_sites Halloc) as Hrun.
  fold (buffered s) in Hrun. specialize (Hrun Hne).
  split; [exact Hrun|]. rewrite Hrun. cbn [snd]. split.
  - unfold add_sites, bind, gets, assign_sites_temp, modify, buffered.
    destruct (sites_temp s) as [[|l a]|]; reflexivity.
  - intros more.
    assert (Hne2 : (buffered s ++ new_sites) ++ more <> []).
    { intros Hc. apply app_eq_nil in Hc as [Hc _]. contradiction. }
    pose proof (add_sites_run alloc (Some (buffered s ++ new_sites)) more
                  Halloc Hne2) as Hrun2.
    cbn [option_map] in Hrun2. rewrite Hrun2.
    pose proof (add_sites_run alloc (sites_temp s) (new_sites ++ more)
                  Halloc) as Hrun3.
    fold (buffered s) in Hrun3. rewrite app_assoc in Hrun3.
    now rewrite (Hrun3 Hne2).
Qed.

(** *** Outcomes of a turn and of a day *)

Lemma team_turn_raises (B : Z) res (s : State) h e s' :
  sites s = Some h ->
  team_turn B res s = (Raise e, s') ->
  e = IndexError /\ s' = s /\ get_max h = None.
Proof.
  intros Hs E.
  destruct (team_turn_cases B res s)
    as [[e' E']|[(h1 & x & h' & _ & _ & _ & E')
               |(h1 & x & h' & s1 & _ & _ & _ & E' & _)]];
    rewrite E' in E; try discriminate.
  destruct (get_max h) as [[x h']|] eqn:Hg.
  - destruct (attacks_dec (o_score x) B) as [[_ Ha]|[_ Hn]].
    + destruct (team_turn_attack B res s h x h' Hs Hg Ha) as (s1 & E1 & _).
      rewrite E1 in E'. discriminate.
    + rewrite (team_turn_quiet B res s h x h' Hs Hg Hn) in E'. discriminate.
  - rewrite (team_turn_empty B res s h Hs Hg) in E'.
    inversion E'; inversion E; subst. repeat split; congruence.
Qed.

Lemma team_turn_keeps_queue (B : Z) res (s : State) h r s' :
  sites s = Some h ->
  team_turn B res s = (Ok r, s') ->
  exists h', sites s' = Some h'.
Proof.
  intros Hs E.
  destruct (team_turn_cases B res s)
    as [[e' E']|[(h1 & x & h' & _ & _ & _ & E')
               |(h1 & x & h' & s1 & _ & _ & _ & E' & _ & _ & Hs1 & _)]];
    rewrite E' in E; inversion E; subst; eauto.
  now exists h'.
Qed.

Lemma turns_raise_only_empty (B : Z) (ts : list Z) :
  forall res (s : State) h e s',
    sites s = Some h ->
    turns B ts res s = (Raise e, s') ->
    e = IndexError.
Proof.
  induction ts as [|t ts IH]; intros res s h e s' Hs Hrun.
  - discriminate.
  - rewrite turns_cons in Hrun. unfold bind in Hrun.
    destruct (team_turn B res s) as [[r|e1] s1] eqn:E.
    + destruct (team_turn_keeps_queue B res s h r s1 Hs E) as [h1 Hs1].
      exact (IH r s1 h1 e s' Hs1 Hrun).
    + inversion Hrun; subst.
      now destruct (team_turn_raises B res s h e s' Hs E).
Qed.

Context {HL : MaxHeapLaws H}.

(** X3. [construct_score_data_structure] fails with [TypeError] while no site
    was ever added; otherwise it returns, without changing the state, a
    queue that holds exactly one node per buffered site, each with the
    score [compute_score] gives the site's current values. *)
Theorem construct_scores_every_site (B : Z) (s : State) :
  (sites_temp s = None ->
   construct_score_data_structure B s = (Raise TypeError, s)) /\
  (forall a,
      sites_temp s = Some a ->
      exists h,
        construct_score_data_structure B s = (Ok h, s) /\
        Permutation (map land (entries h)) a /\
        Forall (fun n =>
                  compute_score (land n) B s
                  = (Ok (o_score n, snd (fst (score_formula (lands s (land n)) B)),
                         snd (score_formula (lands s (land n)) B)), s))
               (entries h)).
Proof.
  split.
  - apply construct_none.
  - intros a Ha. eexists. split; [apply (construct_spec B s a Ha)|].
    pose proof (heapify_entries (map (node_for (lands s) B) a)) as P.
    split.
    + eapply perm_trans; [apply Permutation_map, P|].
      rewrite map_map. cbn [node_for land]. rewrite map_id. apply Permutation_refl.
    + apply (Permutation_Forall (Permutation_sym P)).
      rewrite Forall_map. rewrite Forall_forall. intros l _.
      rewrite compute_score_run. cbn [node_for land o_score].
      now destruct (score_formula (lands s l) B) as [[sc rw] lo].
Qed.

(** X4. A day fails in two ways only.  Without any added site it raises
    [TypeError] and changes nothing.  With a buffer it either returns or
    raises the pop's [IndexError], the latter only when there are more
    teams than buffered sites; no other exception leaves [simulate_day],
    and no division fault in particular. *)
Theorem simulate_day_failures (B : Z) (s : State) :
  (sites_temp s = None -> simulate_day B s = (Raise TypeError, s)) /\
  (forall a e s',
      sites_temp s = Some a ->
      simulate_day B s = (Raise e, s') ->
      e = IndexError /\ (length a < Z.to_nat (n_teams s))%nat).
Proof.
  split.
  - intros Ha. unfold simulate_day.
    now rewrite (bind_raise _ _ _ _ _ (construct_none B s Ha)).
  - intros a e s' Ha Hrun. split.
    + unfold simulate_day in Hrun.
      rewrite (bind_ok _ _ _ _ _ (construct_spec B s a Ha)) in Hrun.
      unfold bind at 1, assign_sites, modify in Hrun.
      unfold bind at 1, gets in Hrun. cbn [n_teams] in Hrun.
      eapply (turns_raise_only_empty B); [|exact Hrun]. reflexivity.
    + destruct (Nat.lt_ge_cases (length a) (Z.to_nat (n_teams s)))
        as [Hlt|Hge]; [exact Hlt|].
      destruct (simulate_day_returns B s a Ha Hge) as (r & s1 & E & _).
      rewrite E in Hrun. discriminate.
Qed.

(** *** The shape of a day's results *)

Lemma turns_quiet_ok (B : Z) (ts : list Z) :
  forall res (s : State) h r s',
    sites s = Some h -> quiet B (entries h) ->
    turns B ts res s = (Ok r, s') ->
    r = res ++ repeat (None, 0%Z) (length ts) /\ lands s' = lands s.
Proof.
  induction ts as [|t ts IH]; intros res s h r s' Hs Hq Hrun.
  - unfold turns in Hrun; simpl in Hrun. inversion Hrun; subst.
    now rewrite app_nil_r.
  - destruct (get_max h) as [[x h']|] eqn:Hg.
    + destruct (quiet_rest B h x h' Hg Hq) as [Hx Hq'].
      rewrite (turns_step B t ts res s _ _
                 (team_turn_quiet B res s h x h' Hs Hg Hx)) in Hrun.
      destruct (IH _ (with_queue s h') h' r s' eq_refl Hq' Hrun) as [-> Hl].
      split; [|exact Hl]. simpl. now rewrite <- app_assoc.
    + rewrite turns_cons, (bind_raise _ _ _ _ _ (team_turn_empty B res s h Hs Hg))
        in Hrun. discriminate.
Qed.

Lemma turns_shape (B : Z) (ts : list Z) :
  forall res (s : State) r s',
    turns B ts res s = (Ok r, s') ->
    exists pre k,
      r = res ++ pre ++ repeat (None, 0%Z) k /\
      (length pre + k = length ts)%nat /\
      Forall (fun p => exists l, fst p = Some l) pre.
Proof.
  induction ts as [|t ts IH]; intros res s r s' Hrun.
  - unfold turns in Hrun; simpl in Hrun. inversion Hrun; subst.
    exists [], 0%nat. simpl. rewrite app_nil_r. repeat split. constructor.
  - destruct (team_turn_cases B res s)
      as [[e E]|[(h & x & h' & Hs & Hg & Hn & E)
                |(h & x & h' & s1 & Hs & Hg & Ha & E & _)]].
    + rewrite turns_cons, (bind_raise _ _ _ _ _ E) in Hrun. discriminate.
    + rewrite (turns_step B t ts res s _ _ E) in Hrun.
      destruct (quiet_rest B h x h' Hg (popped_quiet B h x h' Hg Hn)) as [_ Hq'].
      destruct (turns_quiet_ok B ts _ (with_queue s h') h' r s' eq_refl Hq' Hrun)
        as [-> _].
      exists [], (S (length ts)). simpl. rewrite <- app_assoc.
      repeat split. constructor.
    + rewrite (turns_step B t ts res s _ _ E) in Hrun.
      destruct (IH _ _ _ _ Hrun) as (pre & k & -> & Hlen & Hall).
      exists ((Some (land x), Z.min (guardians (lands s (land x))) B) :: pre), k.
      rewrite <- app_assoc. simpl. repeat split; [lia|].
      constructor; [now exists (land x) | exact Hall].
Qed.

(** X5. Whenever a day returns, its list has one pair per team (none for a
    team count of zero or below), and it is a run of attacks followed by a
    run of [(None, 0)]: after the first team that does not attack, no team
    attacks. *)
Theorem simulate_day_shape (B : Z) (s : State) res s' :
  simulate_day B s = (Ok res, s') ->
  length res = Z.to_nat (n_teams s) /\
  exists pre k,
    res = pre ++ repeat (None, 0%Z) k /\
    Forall (fun p => exists l, fst p = Some l) pre.
Proof.
  intros Hrun. unfold simulate_day in Hrun.
  destruct (sites_temp s) as [a|] eqn:Ha.
  - rewrite (bind_ok _ _ _ _ _ (construct_spec B s a Ha)) in Hrun.
    unfold bind at 1, assign_sites, modify in Hrun.
    unfold bind at 1, gets in Hrun. cbn [n_teams] in Hrun.
    fold (turns B (range (n_teams s)) []) in Hrun.
    split.
    + apply turns_length in Hrun. now rewrite Hrun, range_length.
    + destruct (turns_shape B _ _ _ _ _ Hrun) as (pre & k & -> & _ & Hall).
      now exists pre, k.
  - rewrite (bind_raise _ _ _ _ _ (construct_none B s Ha)) in Hrun. discriminate.
Qed.

(** *** Guards removed and adventurers sent *)

Lemma sent_to_app (site : loc) (res1 res2 : list (option loc * Z)) :
  sent_to site (res1 ++ res2) = (sent_to site res1 + sent_to site res2)%Z.
Proof.
  induction res1 as [|[[l|] m] res1 IH]; simpl; [reflexivity| |exact IH].
  destruct (Nat.eqb l site); lia.
Qed.

Lemma turns_conserve (B : Z) (ts : list Z) :
  forall res (s : State) r s',
    turns B ts res s = (Ok r, s') ->
    forall l,
      (guardians (lands s l) + sent_to l res
       = guardians (lands s' l) + sent_to l r)%Z.
Proof.
  induction ts as [|t ts IH]; intros res s r s' Hrun l.
  - unfold turns in Hrun; simpl in Hrun. now inversion Hrun; subst.
  - destruct (team_turn_cases B res s)
      as [[e E]|[(h & x & h' & Hs & Hg & Hn & E)
                |(h & x & h' & s1 & Hs & Hg & Ha & E & Hx & Ho & _)]].
    + rewrite turns_cons, (bind_raise _ _ _ _ _ E) in Hrun. discriminate.
    + rewrite (turns_step B t ts res s _ _ E) in Hrun.
      rewrite <- (IH _ _ _ _ Hrun l), sent_to_app. cbn. lia.
    + rewrite (turns_step B t ts res s _ _ E) in Hrun.
      rewrite <- (IH _ _ _ _ Hrun l), sent_to_app. cbn [sent_to].
      destruct (Nat.eqb (land x) l) eqn:El.
      * apply Nat.eqb_eq in El. subst l. rewrite Hx.
        unfold depleted. cbn [guardians snd score_formula]. lia.
      * apply Nat.eqb_neq in El. rewrite (Ho l) by congruence. lia.
Qed.

(** X6. Whenever a day returns, every site has lost exactly as many guards as
    the pairs of the returned list sent to it; a site no pair names keeps
    its guard cost. *)
Theorem guards_removed_are_adventurers_sent (B : Z) (s : State) res s' :
  simulate_day B s = (Ok res, s') ->
  forall l,
    guardians (lands s' l) = (guardians (lands s l) - sent_to l res)%Z.
Proof.
  intros Hrun l. unfold simulate_day in Hrun.
  destruct (sites_temp s) as [a|] eqn:Ha.
  - rewrite (bind_ok _ _ _ _ _ (construct_spec B s a Ha)) in Hrun.
    unfold bind at 1, assign_sites, modify in Hrun.
    unfold bind at 1, gets in Hrun. cbn [n_teams] in Hrun.
    pose proof (turns_conserve B _ _ _ _ _ Hrun l) as Hc.
    cbn [lands sent_to] in Hc. lia.
  - rewrite (bind_raise _ _ _ _ _ (construct_none B s Ha)) in Hrun. discriminate.
Qed.

(** *** Fresh scores, and what an attack sends *)

Lemma attack_needs_guards (v : Land) (B : Z) :
  site_ok v -> (0 <= B)%Z ->
  attacks (fst (fst (score_formula v B))) B ->
  (1 <= Z.min (guardians v) B)%Z.
Proof.
  intros [Hgold Hg] HB Ha.
  destruct (Z.le_gt_cases 1 (Z.min (guardians v) B)) as [Hok|Hlow]; [exact Hok|].
  exfalso. assert (Hmin : Z.min (guardians v) B = 0%Z) by lia.
  unfold attacks, score_formula in Ha. cbn [fst] in Ha. rewrite Hmin in Ha.
  rewrite Z.sub_0_r in Ha.
  destruct (guardians v =? 0)%Z eqn:E.
  - apply (Qlt_irrefl ((5 # 2) * inject_Z B)).
    eapply Qlt_le_trans; [exact Ha|]. rewrite Qplus_0_r. apply Qle_refl.
  - apply Z.eqb_neq in E. assert (HB0 : B = 0%Z) by lia. subst B.
    assert (Hr : (Qmin (inject_Z 0 * gold v / inject_Z (guardians v)) (gold v) <= 0)%Q).
    { eapply Qle_trans; [apply Q.le_min_l|].
      unfold Qdiv. rewrite !Qmult_0_l. apply Qle_refl. }
    apply (Qlt_irrefl ((5 # 2) * inject_Z 0)).
    eapply Qlt_le_trans; [exact Ha|].
    rewrite <- (Qplus_0_r ((5 # 2) * inject_Z 0)) at 2.
    apply Qplus_le_r. exact Hr.
Qed.

Lemma team_turn_fresh (B : Z) res (s : State) :
  queue_fresh B s -> queue_fresh B (snd (team_turn B res s)).
Proof.
  intros [Hf Hnd].
  destruct (team_turn_cases B res s)
    as [[e E]|[(h & x & h' & Hs & Hg & _ & E)
              |(h & x & h' & s1 & Hs & Hg & _ & E & Hx & Ho & Hs1 & _)]];
    rewrite E; cbn [snd].
  - now split.
  - unfold queue_fresh, queued in *. rewrite Hs in *. cbn [with_queue sites].
    apply get_max_some in Hg as [Pm _].
    apply (Permutation_Forall Pm) in Hf.
    apply (Permutation_NoDup (Permutation_map land Pm)) in Hnd.
    inversion Hf; inversion Hnd; subst. now split.
  - unfold queue_fresh, queued in *. rewrite Hs in *. rewrite Hs1.
    apply get_max_some in Hg as [Pm _].
    apply (Permutation_Forall Pm) in Hf.
    apply (Permutation_NoDup (Permutation_map land Pm)) in Hnd.
    inversion Hf as [|? ? _ Hrest]; subst.
    cbn [map] in Hnd. inversion Hnd as [|? ? Hnotin Hnd']; subst.
    pose proof (add_entries h' (node_for (lands s1) B (land x))) as Pa.
    split.
    + apply (Permutation_Forall (Permutation_sym Pa)).
      constructor; [reflexivity|].
      rewrite Forall_forall in *. intros n Hn.
      rewrite (Hrest n Hn). unfold score_now. rewrite Ho; [reflexivity|].
      intros Heq. apply Hnotin. rewrite <- Heq. now apply in_map.
    + apply (Permutation_NoDup (Permutation_sym (Permutation_map land Pa))).
      cbn [map node_for land]. now constructor.
Qed.

Lemma turns_attacks_send (B : Z) (HB : (0 <= B)%Z) (ts : list Z) :
  forall res (s : State) r s',
    sites_inv site_ok s -> queue_fresh B s ->
    Forall (fun p => fst p <> None -> (1 <= snd p)%Z) res ->
    turns B ts res s = (Ok r, s') ->
    Forall (fun p => fst p <> None -> (1 <= snd p)%Z) r.
Proof.
  induction ts as [|t ts IH]; intros res s r s' Hinv Hfresh Hres Hrun.
  - unfold turns in Hrun; simpl in Hrun. now inversion Hrun; subst.
  - destruct (team_turn_inv site_ok B (depleted_site_ok B) res s Hinv)
      as [Hinv1 _].
    pose proof (team_turn_fresh B res s Hfresh) as Hfresh1.
    destruct Hinv as [Hb Hq]. destruct Hfresh as [Hf _].
    destruct (team_turn_cases B res s)
      as [[e E]|[(h & x & h' & Hs & Hg & _ & E)
                |(h & x & h' & s1 & Hs & Hg & Ha & E & _)]];
      rewrite E in Hinv1, Hfresh1; cbn [snd] in Hinv1, Hfresh1.
    + rewrite turns_cons, (bind_raise _ _ _ _ _ E) in Hrun. discriminate.
    + rewrite (turns_step B t ts res s _ _ E) in Hrun.
      apply (IH _ _ _ _ Hinv1 Hfresh1) in Hrun; [exact Hrun|].
      apply Forall_app. split; [exact Hres|].
      constructor; [cbn; congruence | constructor].
    + rewrite (turns_step B t ts res s _ _ E) in Hrun.
      apply (IH _ _ _ _ Hinv1 Hfresh1) in Hrun; [exact Hrun|].
      apply Forall_app. split; [exact Hres|].
      constructor; [|constructor]. intros _. cbn [snd].
      unfold queued in Hq, Hf. rewrite Hs in Hq, Hf.
      apply get_max_some in Hg as [Pm _].
      apply (Permutation_Forall Pm) in Hq. inversion Hq as [|? ? Hin _]; subst.
      apply (Permutation_Forall Pm) in Hf. inversion Hf as [|? ? Hsc _]; subst.
      rewrite Forall_forall in Hb. specialize (Hb _ Hin).
      apply attack_needs_guards; [exact Hb | exact HB|].
      unfold score_now in Hsc. now rewrite <- Hsc.
Qed.

(** X7. With a non-negative budget, non-negative rewards and guard costs and
    no site buffered twice, every team that attacks sends at least one
    adventurer: a site whose guards are gone scores just the threshold and
    is never attacked again. *)
Theorem attacks_send_someone (B : Z) (s : State) res s' :
  (0 <= B)%Z ->
  Forall (fun l => site_ok (lands s l)) (buffered s) ->
  NoDup (buffered s) ->
  simulate_day B s = (Ok res, s') ->
  Forall (fun p => fst p <> None -> (1 <= snd p)%Z) res.
Proof.
  intros HB Hb Hnd Hrun. unfold simulate_day in Hrun.
  destruct (sites_temp s) as [a|] eqn:Ha.
  - rewrite (bind_ok _ _ _ _ _ (construct_spec B s a Ha)) in Hrun.
    unfold bind at 1, assign_sites, modify in Hrun.
    unfold bind at 1, gets in Hrun. cbn [n_teams] in Hrun.
    unfold buffered in Hb, Hnd. rewrite Ha in Hb, Hnd.
    pose proof (heapify_entries (map (node_for (lands s) B) a)) as P.
    apply (turns_attacks_send B HB _ _ _ _ _) in Hrun; [exact Hrun| | |constructor].
    + unfold sites_inv, buffered, queued. cbn [sites_temp lands sites].
      rewrite Ha. split; [exact Hb|].
      apply (Permutation_Forall (Permutation_sym P)).
      rewrite Forall_map. cbn [node_for land]. rewrite Forall_forall. auto.
    + unfold queue_fresh, queued. cbn [sites]. split.
      * apply (Permutation_Forall (Permutation_sym P)).
        rewrite Forall_map. rewrite Forall_forall. intros l _. reflexivity.
      * apply (Permutation_NoDup (Permutation_sym (Permutation_map land P))).
        rewrite map_map. cbn [node_for land]. now rewrite map_id.
  - rewrite (bind_raise _ _ _ _ _ (construct_none B s Ha)) in Hrun. discriminate.
Qed.

(** *** Scores over a day *)










End WithQueue.

(** *** The properties above on the documented day *)

Lemma add_sites_fills_array_witness :
  Arrays.add_sites (fun n => Ok (repeat None (Z.to_nat n))) [Scenario.D]
    (Some (Arrays.full [Scenario.A; Scenario.B; Scenario.C]))
  = (Ok tt,
     Some (Arrays.full [Scenario.A; Scenario.B; Scenario.C; Scenario.D])).
Proof.
  exact (proj1 (@add_sites_fills_array ListHeap
                  (fun n => Ok (repeat None (Z.to_nat n)))
                  Scenario.day_start [Scenario.D]
                  ltac:(reflexivity) ltac:(discriminate))).
Defined.

Lemma construct_scores_every_site_witness :
  @construct_score_data_structure ListHeap 100 (init Scenario.day_store 5)
  = (Raise TypeError, init Scenario.day_store 5) /\
  exists h,
    @construct_score_data_structure ListHeap 100 Scenario.day_start
    = (Ok h, Scenario.day_start) /\
    Permutation (map land (entries h)) [Scenario.A; Scenario.B; Scenario.C].
Proof.
  split.
  - apply (proj1 (@construct_scores_every_site ListHeap ListHeap_laws 100
                    (init Scenario.day_store 5))).
    reflexivity.
  - destruct (proj2 (@construct_scores_every_site ListHeap ListHeap_laws 100
                       Scenario.day_start)
                [Scenario.A; Scenario.B; Scenario.C])
      as (h & Hrun & Hp & _); [reflexivity|].
    exists h. split; assumption.
Defined.

Lemma simulate_day_failures_witness :
  @simulate_day ListHeap 100 (init Scenario.day_store 5)
  = (Raise TypeError, init Scenario.day_store 5) /\
  fst (@simulate_day ListHeap 10 Scenario.poor_start) = Raise IndexError.
Proof.
  split.
  - apply (proj1 (@simulate_day_failures ListHeap ListHeap_laws 100
                    (init Scenario.day_store 5))).
    reflexivity.
  - destruct (@simulate_day ListHeap 10 Scenario.poor_start)
      as [[r|e] s'] eqn:E.
    + assert (Hc : match fst (@simulate_day ListHeap 10 Scenario.poor_start) with
                   | Ok _ => False
                   | Raise _ => True
                   end) by (vm_compute; exact I).
      rewrite E in Hc. destruct Hc.
    + destruct (proj2 (@simulate_day_failures ListHeap ListHeap_laws 10
                         Scenario.poor_start)
                  [Scenario.A] e s' eq_refl E) as [He _].
      cbn [fst]. now rewrite He.
Defined.

Lemma simulate_day_shape_witness :
  exists res s',
    @simulate_day ListHeap 100 Scenario.day_start = (Ok res, s') /\
    length res = 5%nat.
Proof.
  do 2 eexists. split; [vm_compute; reflexivity|].
  refine (proj1 (@simulate_day_shape ListHeap ListHeap_laws 100
                   Scenario.day_start _ _ _)).
  vm_compute; reflexivity.
Defined.

Lemma guards_removed_are_adventurers_sent_witness :
  exists res s',
    @simulate_day ListHeap 100 Scenario.day_start = (Ok res, s') /\
    guardians (lands s' Scenario.B) = (120 - sent_to Scenario.B res)%Z.
Proof.
  do 2 eexists. split; [vm_compute; reflexivity|].
  refine (@guards_removed_are_adventurers_sent ListHeap 100
            Scenario.day_start _ _ _ Scenario.B).
  vm_compute; reflexivity.
Defined.

Lemma attacks_send_someone_witness :
  exists res s',
    @simulate_day ListHeap 100 Scenario.day_start = (Ok res, s') /\
    Forall (fun p => fst p <> None -> (1 <= snd p)%Z) res.
Proof.
  do 2 eexists. split; [vm_compute; reflexivity|].
  refine (@attacks_send_someone ListHeap ListHeap_laws 100
            Scenario.day_start _ _ _ _ _ _).
  - lia.
  - repeat constructor; cbn; try lia; unfold Qle; cbn; lia.
  - repeat constructor; cbn; intuition discriminate.
  - vm_compute; reflexivity.
Defined.


(** The scores of the single site [D(980, 230)] at a budget of 80, before
    and after its first attack: one exact value. *)
Example lone_site_scores :
  (fst (fst (score_formula (Scenario.lone_store Scenario.D) 80))
   == 7840 # 23)%Q /\
  (fst (fst (score_formula
               (depleted (Scenario.lone_store Scenario.D) 80) 80))
   == 7840 # 23)%Q.
Proof. split; vm_compute; reflexivity. Qed.

(** Why no site may be buffered twice: the second node of a site queued
    twice keeps its score when the first attack takes all the guards, and
    the next team attacks the site with nobody. *)
Example twice_buffered_site :
  let st : store := fun _ => mkLand "A" 400 100 in
  fst (@simulate_day ListHeap 100
         (snd (add_sites [Scenario.A; Scenario.A] (init st 2))))
  = Ok [(Some Scenario.A, 100%Z); (Some Scenario.A, 0%Z)].
Proof. vm_compute. reflexivity. Qed.

End Mode2More.

(** ** Mode 1: the rest of the navigator *)

Module Mode1More.
Import Mode1 Mode1Facts.

(** *** More on the container *)

Lemma bst_getitem_Qeq (k k' : Q) (t : BinarySearchTree) :
  (k == k')%Q -> bst_getitem k t = bst_getitem k' t.
Proof.
  intros E. induction t as [|[k0 v0] t IH]; simpl; [reflexivity|].
  rewrite IH. now rewrite (Qeqb_comp k k' E k0 k0 (Qeq_refl k0)).
Qed.

Lemma bst_delitem_none (k : Q) (t : BinarySearchTree) :
  bst_getitem k t = None -> bst_delitem k t = None.
Proof.
  induction t as [|[k0 v0] t IH]; simpl; [reflexivity|].
  destruct (Qeq_bool k k0); [discriminate|].
  intros Hn. now rewrite (IH Hn).
Qed.

Lemma bst_getitem_delitem_other (k k2 : Q) (t t' : BinarySearchTree) :
  bst_delitem k2 t = Some t' -> ~ (k == k2)%Q ->
  bst_getitem k t' = bst_getitem k t.
Proof.
  revert t'. induction t as [|[k0 v0] t IH]; intros t' Hdel Hne; simpl in Hdel.
  - discriminate.
  - destruct (Qeq_bool k2 k0) eqn:E.
    + inversion Hdel; subst. simpl.
      apply Qeq_bool_iff in E.
      assert (Hne0 : ~ (k == k0)%Q) by (intros Hc; apply Hne; now rewrite Hc, E).
      now rewrite (Qeq_bool_false_of_neq _ _ Hne0).
    + destruct (bst_delitem k2 t) as [t1|]; [|discriminate].
      inversion Hdel; subst. simpl. now rewrite (IH t1 eq_refl Hne).
Qed.

(** *** Updating a site: the run, its failures, what it keeps *)

Lemma update_site_run (s : State) (land : loc) (new_reward : Q)
    (new_guardians : Z) t_mid :
  ~ (gold (lands s land) == 0)%Q ->
  bst_delitem (ratio_of (lands s land)) (sites s) = Some t_mid ->
  exists s1,
    (bind (ratio land) (fun key => sites_delitem key) ;;
     assign_gold land new_reward ;;
     assign_guardians land new_guardians) s = (Ok tt, s1) /\
    sites s1 = t_mid /\
    lands s1 land = mkLand (name (lands s land)) new_reward new_guardians /\
    (forall l, l <> land -> lands s1 l = lands s l) /\
    total_adventurers s1 = total_adventurers s /\
    update_site land new_reward new_guardians s
    = (bind (ratio land) (fun key => sites_setitem key land)) s1.
Proof.
  intros Hgold Hdel.
  eexists. split; [|split; [|split; [|split; [|split]]]].
  - unfold bind at 1. unfold bind at 1.
    rewrite (ratio_run land s Hgold).
    unfold sites_delitem, bind at 1, gets. rewrite Hdel.
    unfold assign_sites, modify, bind, assign_gold, assign_guardians, modify.
    reflexivity.
  - reflexivity.
  - cbn [lands]. now rewrite !upd_same.
  - intros l Hl. cbn [lands]. now rewrite !upd_other.
  - reflexivity.
  - unfold update_site.
    rewrite (bind_ok _ _ _ _ _ (ratio_run land s Hgold)).
    unfold bind at 1, sites_delitem, bind at 1, gets. rewrite Hdel.
    unfold assign_sites, modify.
    unfold bind at 1, assign_gold, modify.
    unfold bind at 1, assign_guardians, modify.
    reflexivity.
Qed.

(** X9. [update_site] fails before it changes anything in two cases: the site
    has a reward of zero, and the key expression faults; or the container
    holds nothing under the site's current ratio, and the delete fails. *)
Theorem update_site_fails_early (s : State) (land : loc)
    (new_reward : Q) (new_guardians : Z) :
  ((gold (lands s land) == 0)%Q ->
   update_site land new_reward new_guardians s = (Raise ZeroDivisionError, s)) /\
  (~ (gold (lands s land) == 0)%Q ->
   bst_getitem (ratio_of (lands s land)) (sites s) = None ->
   update_site land new_reward new_guardians s = (Raise KeyError, s)).
Proof.
  split.
  - intros Hz. unfold update_site.
    now rewrite (bind_raise _ _ _ _ _ (ratio_fault land s Hz)).
  - intros Hgold Hnone. unfold update_site.
    rewrite (bind_ok _ _ _ _ _ (ratio_run land s Hgold)).
    unfold bind at 1, sites_delitem, bind at 1, gets.
    now rewrite (bst_delitem_none _ _ Hnone).
Qed.

(** X10. [update_site] is not atomic: with a new reward of zero it raises
    [ZeroDivisionError] only after it has deleted the site's entry and
    overwritten the two fields, so that the site is no longer in the
    container. *)
Theorem update_site_zero_reward_loses_site (s : State) (land : loc)
    (new_reward : Q) (new_guardians : Z) :
  bst_ok (sites s) ->
  ~ (gold (lands s land) == 0)%Q ->
  bst_getitem (ratio_of (lands s land)) (sites s) = Some land ->
  (new_reward == 0)%Q ->
  exists s',
    update_site land new_reward new_guardians s = (Raise ZeroDivisionError, s') /\
    bst_delitem (ratio_of (lands s land)) (sites s) = Some (sites s') /\
    bst_getitem (ratio_of (lands s land)) (sites s') = None /\
    lands s' land = mkLand (name (lands s land)) new_reward new_guardians /\
    (forall l, l <> land -> lands s' l = lands s l).
Proof.
  intros Hok Hgold Hget Hzero.
  destruct (bst_delitem_present _ _ _ Hget) as [t_mid Hdel].
  destruct (update_site_run s land new_reward new_guardians t_mid Hgold Hdel)
    as (s1 & _ & Hs1 & Hl & Ho & _ & Hrun).
  exists s1. rewrite Hrun, Hs1.
  split.
  - apply bind_raise. apply ratio_fault. now rewrite Hl.
  - split; [exact Hdel|]. split; [|split; assumption].
    now apply (bst_delitem_getitem _ (sites s)).
Qed.

Lemma update_site_done (s : State) (land : loc) (new_reward : Q)
    (new_guardians : Z) :
  ~ (gold (lands s land) == 0)%Q ->
  bst_getitem (ratio_of (lands s land)) (sites s) = Some land ->
  ~ (new_reward == 0)%Q ->
  exists s' t_mid,
    update_site land new_reward new_guardians s = (Ok tt, s') /\
    bst_delitem (ratio_of (lands s land)) (sites s) = Some t_mid /\
    sites s' = bst_setitem (inject_Z new_guardians / new_reward)%Q land t_mid /\
    lands s' land = mkLand (name (lands s land)) new_reward new_guardians /\
    (forall l, l <> land -> lands s' l = lands s l) /\
    total_adventurers s' = total_adventurers s.
Proof.
  intros Hgold Hget Hnew.
  destruct (bst_delitem_present _ _ _ Hget) as [t_mid Hdel].
  destruct (update_site_run s land new_reward new_guardians t_mid Hgold Hdel)
    as (s1 & _ & Hs1 & Hl & Ho & Hb & Hrun).
  assert (Hr : ratio land s1 = (Ok (inject_Z new_guardians / new_reward)%Q, s1)).
  { rewrite ratio_run; rewrite Hl; [reflexivity | exact Hnew]. }
  eexists. exists t_mid. rewrite Hrun, (bind_ok _ _ _ _ _ Hr).
  unfold sites_setitem, bind, gets, assign_sites, modify.
  split; [reflexivity|]. cbn [sites lands total_adventurers].
  rewrite Hs1. repeat split; assumption.
Qed.


(** X12. An update followed by the update back to the old values restores the
    navigator: every site has its old fields, every lookup in the
    container gives what it gave before, and the budget is kept; provided
    the intermediate ratio is not the key of another site. *)
Theorem update_site_round_trip (s : State) (land : loc)
    (new_reward : Q) (new_guardians : Z) :
  bst_ok (sites s) ->
  ~ (gold (lands s land) == 0)%Q ->
  bst_getitem (ratio_of (lands s land)) (sites s) = Some land ->
  ~ (new_reward == 0)%Q ->
  bst_getitem (inject_Z new_guardians / new_reward)%Q (sites s) = None \/
  (inject_Z new_guardians / new_reward == ratio_of (lands s land))%Q ->
  exists s1 s2,
    update_site land new_reward new_guardians s = (Ok tt, s1) /\
    update_site land (gold (lands s land)) (guardians (lands s land)) s1
    = (Ok tt, s2) /\
    (forall l, lands s2 l = lands s l) /\
    (forall k, bst_getitem k (sites s2) = bst_getitem k (sites s)) /\
    total_adventurers s2 = total_adventurers s.
Proof.
  intros Hok Hgold Hget Hnew Hfree.
  set (old_key := ratio_of (lands s land)) in *.
  set (new_key := (inject_Z new_guardians / new_reward)%Q) in *.
  destruct (update_site_done s land new_reward new_guardians Hgold Hget Hnew)
    as (s1 & t_mid & Hrun1 & Hdel1 & Hs1 & Hl1 & Ho1 & Hb1).
  fold old_key in Hdel1. fold new_key in Hs1.
  assert (Hok_mid : bst_ok t_mid) by now apply (bst_delitem_ok old_key (sites s)).
  assert (Hok1 : bst_ok (sites s1)) by (rewrite Hs1; now apply bst_setitem_ok).
  assert (Hkey1 : ratio_of (lands s1 land) = new_key) by now rewrite Hl1.
  assert (Hgold1 : ~ (gold (lands s1 land) == 0)%Q) by now rewrite Hl1.
  assert (Hget1 : bst_getitem (ratio_of (lands s1 land)) (sites s1) = Some land)
    by (rewrite Hkey1, Hs1; apply bst_getitem_setitem_same).
  destruct (update_site_done s1 land (gold (lands s land))
              (guardians (lands s land)) Hgold1 Hget1 Hgold)
    as (s2 & t2 & Hrun2 & Hdel2 & Hs2 & Hl2 & Ho2 & Hb2).
  rewrite Hkey1 in Hdel2. fold (ratio_of (lands s land)) in Hs2. fold old_key in Hs2.
  exists s1, s2. split; [exact Hrun1|]. split; [exact Hrun2|].
  split; [|split; [|congruence]].
  - intros l. destruct (Nat.eq_dec l land) as [->|Hne].
    + rewrite Hl2, Hl1. cbn [name]. now destruct (lands s land).
    + now rewrite (Ho2 l Hne), (Ho1 l Hne).
  - intros k. rewrite Hs2.
    destruct (Qeq_dec k old_key) as [Ek|Ek].
    + rewrite (bst_getitem_Qeq k old_key _ Ek), bst_getitem_setitem_same.
      now rewrite (bst_getitem_Qeq k old_key _ Ek).
    + rewrite (bst_getitem_setitem_other _ _ _ _ Ek).
      destruct (Qeq_dec k new_key) as [En|En].
      * rewrite (bst_getitem_Qeq k new_key _ En).
        rewrite (bst_delitem_getitem new_key (sites s1) t2 Hok1 Hdel2).
        destruct Hfree as [Hnone|Hsame].
        -- now rewrite (bst_getitem_Qeq k new_key _ En).
        -- exfalso. apply Ek. now rewrite En.
      * rewrite (bst_getitem_delitem_other k new_key (sites s1) t2 Hdel2 En).
        rewrite Hs1, (bst_getitem_setitem_other _ _ _ _ En).
        now apply (bst_getitem_delitem_other k old_key (sites s)).
Qed.

(** *** The two ends of the scan *)

Lemma select_loop_done (s : State) nodes (remaining : Z) acc :
  (remaining <= 0)%Z ->
  select_loop nodes remaining acc s = (Ok (acc, remaining), s).
Proof.
  intros Hle.
  assert (E : (remaining >? 0)%Z = false)
    by (rewrite Z.gtb_ltb; apply Z.ltb_ge; exact Hle).
  destruct nodes as [|[k l] nodes]; simpl; now rewrite E.
Qed.

Lemma select_loop_all (s : State) (nodes : list (Q * loc)) :
  forall (remaining : Z) acc,
    Forall (fun e => (1 <= guardians (lands s (snd e)))%Z) nodes ->
    (sumZ (map (fun e => guardians (lands s (snd e))) nodes) <= remaining)%Z ->
    select_loop nodes remaining acc s
    = (Ok (acc ++ map (fun e => (snd e, guardians (lands s (snd e)))) nodes,
           (remaining
            - sumZ (map (fun e => guardians (lands s (snd e))) nodes))%Z), s).
Proof.
  induction nodes as [|[k l] nodes IH]; intros remaining acc Hall Hsum.
  - simpl. rewrite app_nil_r, Z.sub_0_r. now destruct (remaining >? 0)%Z.
  - inversion Hall as [|? ? Hg Hall']; subst. cbn [snd] in Hg.
    cbn [map sumZ fold_right snd] in Hsum |- *.
    fold (sumZ (map (fun e => guardians (lands s (snd e))) nodes)) in Hsum |- *.
    assert (Hrest : (0 <= sumZ (map (fun e => guardians (lands s (snd e))) nodes))%Z).
    { clear -Hall'. induction Hall' as [|e t He _ IHt]; simpl; [lia|].
      fold (sumZ (map (fun e => guardians (lands s (snd e))) t)). lia. }
    simpl select_loop.
    assert (E : (remaining >? 0)%Z = true) by (apply Z.gtb_lt; lia).
    rewrite E. unfold bind, get_guardians, gets.
    replace (Z.min remaining (guardians (lands s l)))
      with (guardians (lands s l)) by lia.
    rewrite IH by (assumption || lia).
    rewrite <- app_assoc. cbn [app]. now rewrite Z.sub_add_distr.
Qed.

(** X13. The two ends of [select_sites].  A positive budget that the first site
    of the container absorbs gives a single pair, that site with the whole
    budget.  A budget that covers the guards of all sites, each at least
    one, gives every site of the container, in order, with its whole guard
    cost. *)
Theorem select_sites_extremes (s : State) :
  (forall k l t,
      sites s = (k, l) :: t ->
      (0 < total_adventurers s <= guardians (lands s l))%Z ->
      select_sites s = (Ok [(l, total_adventurers s)], s)) /\
  (Forall (fun e => (1 <= guardians (lands s (snd e)))%Z) (sites s) ->
   (sumZ (map (fun e => guardians (lands s (snd e))) (sites s))
    <= total_adventurers s)%Z ->
   select_sites s
   = (Ok (map (fun e => (snd e, guardians (lands s (snd e)))) (sites s)), s)).
Proof.
  split.
  - intros k l t Hs Hb.
    unfold select_sites, select_sites_aux, bind, gets, bst_iter.
    rewrite Hs. simpl select_loop.
    assert (E : (total_adventurers s >? 0)%Z = true) by (apply Z.gtb_lt; lia).
    rewrite E. unfold bind, get_guardians, gets.
    replace (Z.min (total_adventurers s) (guardians (lands s l)))
      with (total_adventurers s) by lia.
    rewrite select_loop_done by lia. reflexivity.
  - intros Hall Hsum.
    unfold select_sites, select_sites_aux, bind, gets, bst_iter.
    now rewrite (select_loop_all s (sites s) _ [] Hall Hsum).
Qed.

(** *** Probing, budget by budget *)

Lemma rewards_value (path : list (loc * Z)) :
  forall (total : Q) (s : State) q s',
    for_each path total
      (fun total_reward visit =>
         reward <- visit_reward (fst visit) (snd visit) ;;
         ret (total_reward + reward)%Q) s = (Ok q, s') ->
    q = fold_left (fun total visit => (total + reward_of (lands s) visit)%Q)
          path total.
Proof.
  induction path as [|[l m] path IH]; intros total s q s' Hrun; simpl in Hrun.
  - now inversion Hrun.
  - unfold bind at 1 in Hrun. unfold bind at 1 in Hrun.
    rewrite visit_reward_run in Hrun. cbn [fst snd] in Hrun.
    destruct (guardians (lands s l) =? 0)%Z; [discriminate|].
    unfold ret at 1 in Hrun. apply IH in Hrun. exact Hrun.
Qed.

Lemma probe_value (acc : list Q) (b : Z) (s : State) r s' :
  probe acc b s = (Ok r, s') ->
  r = acc ++ [path_value (lands s) (path_at s b)] /\ s' = with_budget s b.
Proof.
  unfold probe, bind at 1, assign_total_adventurers, modify.
  fold (with_budget s b).
  destruct (select_sites_aux_run (with_budget s b))
    as (res & rem & _ & Hsel & _).
  rewrite (bind_ok _ _ _ _ _ Hsel).
  assert (Hpath : path_at s b = res) by (unfold path_at; now rewrite Hsel).
  destruct (path_reward res (with_budget s b)) as [[q|e] s1] eqn:E.
  - rewrite (bind_ok _ _ _ _ _ E). unfold ret. intros Hrun.
    pose proof (rewards_value res 0%Q (with_budget s b) q s1 E) as Hq.
    destruct (rewards_frame res 0%Q (with_budget s b)) as (o & Hf & _).
    fold (path_reward res) in Hf. rewrite Hf in E.
    inversion E as [[Ho Hs1]]. inversion Hrun as [[Hr Hs']].
    split; [|congruence].
    rewrite Hq, Hpath. reflexivity.
  - rewrite (bind_raise _ _ _ _ _ E). discriminate.
Qed.

Lemma probes_value (nums : list Z) :
  forall acc (s : State) r s',
    for_each nums acc probe s = (Ok r, s') ->
    r = acc ++ map (fun b => path_value (lands s) (path_at s b)) nums.
Proof.
  induction nums as [|b nums IH]; intros acc s r s' Hrun; simpl in Hrun.
  - inversion Hrun. now rewrite app_nil_r.
  - unfold bind in Hrun.
    destruct (probe acc b s) as [[r1|e] s1] eqn:E; [|discriminate].
    apply probe_value in E as [-> ->].
    apply IH in Hrun. rewrite Hrun, <- app_assoc. reflexivity.
Qed.

(** X14. When [select_sites_from_adventure_numbers] returns, the reward at each
    position is the total, over the path [select_sites] takes for the
    budget at that position, of [min(adv * gold / guardians, gold)]: it
    depends on that budget alone, not on the other budgets, their order or
    the budget the navigator holds. *)
Theorem probing_is_pointwise (nums : list Z) (s : State) r s' :
  select_sites_from_adventure_numbers nums s = (Ok r, s') ->
  r = map (fun b => path_value (lands s) (path_at s b)) nums.
Proof.
  unfold select_sites_from_adventure_numbers, bind at 1, gets.
  unfold bind at 1.
  destruct (for_each nums [] probe s) as [[r1|e] s1] eqn:E; [|discriminate].
  unfold bind, assign_total_adventurers, modify, ret. intros Hrun.
  inversion Hrun; subst. now apply probes_value in E.
Qed.

(** *** Building the container *)

Lemma getitem_nat {A} (l : list A) (i : nat) (x : A) (s : State) :
  nth_error l i = Some x -> getitem l (Z.of_nat i) s = (Ok x, s).
Proof.
  intros Hn. unfold getitem.
  assert (E : (Z.of_nat i <? 0)%Z = false) by (apply Z.ltb_ge; lia).
  rewrite E, E, Nat2Z.id, Hn. reflexivity.
Qed.

Lemma insert_step (l : list loc) (i : nat) (x : loc) bst (s : State) :
  nth_error l i = Some x ->
  (item <- getitem l (Z.of_nat i) ;;
   key <- ratio item ;;
   ret (bst_setitem key item bst)) s
  = if Qeq_bool (gold (lands s x)) 0 then (Raise ZeroDivisionError, s)
    else (Ok (bst_setitem (ratio_of (lands s x)) x bst), s).
Proof.
  intros Hn. rewrite (bind_ok _ _ _ _ _ (getitem_nat l i x s Hn)).
  destruct (Qeq_bool (gold (lands s x)) 0) eqn:E.
  - apply bind_raise, ratio_fault. now apply Qeq_bool_iff.
  - rewrite (bind_ok _ _ _ _ _ (ratio_run x s (Qeq_bool_neq _ _ E))).
    reflexivity.
Qed.

Lemma insert_loop_up (l : list loc) (s : State) (items : list loc) :
  forall pre bst,
    l = pre ++ items ->
    for_each (map Z.of_nat (seq (length pre) (length items))) bst
      (fun bst i =>
         item <- getitem l i ;;
         key <- ratio item ;;
         ret (bst_setitem key item bst)) s
    = (insert_run (lands s) items bst, s).
Proof.
  induction items as [|x items IH]; intros pre bst Hl; [reflexivity|].
  cbn [length seq map for_each insert_run].
  assert (Hn : nth_error l (length pre) = Some x).
  { rewrite Hl, nth_error_app2 by lia. now rewrite Nat.sub_diag. }
  unfold bind at 1. rewrite (insert_step l _ x bst s Hn).
  destruct (Qeq_bool (gold (lands s x)) 0); [reflexivity|].
  specialize (IH (pre ++ [x]) (bst_setitem (ratio_of (lands s x)) x bst)).
  rewrite length_app in IH. cbn [length] in IH.
  rewrite Nat.add_1_r in IH. apply IH.
  now rewrite <- app_assoc.
Qed.

Lemma insert_loop_down (l : list loc) (s : State) (pre : list loc) :
  forall post bst,
    l = pre ++ post ->
    for_each (map Z.of_nat (rev (seq 0 (length pre)))) bst
      (fun bst i =>
         item <- getitem l i ;;
         key <- ratio item ;;
         ret (bst_setitem key item bst)) s
    = (insert_run (lands s) (rev pre) bst, s).
Proof.
  induction pre as [|x pre IH] using rev_ind; intros post bst Hl; [reflexivity|].
  rewrite length_app. cbn [length]. rewrite Nat.add_1_r, seq_S, !rev_app_distr.
  cbn [rev app map for_each insert_run plus].
  assert (Hn : nth_error l (length pre) = Some x).
  { rewrite Hl, <- app_assoc, nth_error_app2 by lia. now rewrite Nat.sub_diag. }
  unfold bind at 1. rewrite (insert_step l _ x bst s Hn).
  destruct (Qeq_bool (gold (lands s x)) 0); [reflexivity|].
  apply (IH (x :: post)). now rewrite Hl, <- app_assoc.
Qed.

Lemma range3_up (a k : nat) :
  range3 (Z.of_nat a) (Z.of_nat (a + k)) 1 = map Z.of_nat (seq a k).
Proof.
  unfold range3. cbn [Z.ltb Z.compare].
  replace ((Z.of_nat (a + k) - Z.of_nat a + 1 - 1) / 1)%Z with (Z.of_nat k)
    by (rewrite Z.div_1_r; lia).
  rewrite Nat2Z.id.
  assert (Hgen : forall k b,
             map (fun i => (Z.of_nat a + Z.of_nat i * 1)%Z) (seq b k)
             = map Z.of_nat (seq (a + b) k)).
  { clear k. induction k as [|k IHk]; intros b; [reflexivity|].
    cbn [seq map]. f_equal; [lia|].
    rewrite IHk. now rewrite Nat.add_succ_r. }
  rewrite Hgen. now rewrite Nat.add_0_r.
Qed.

Lemma range3_down (m : nat) :
  range3 (Z.of_nat m - 1) (-1) (-1) = map Z.of_nat (rev (seq 0 m)).
Proof.
  unfold range3. cbn [Z.ltb Z.compare Z.opp].
  replace ((Z.of_nat m - 1 - -1 - -1 - 1) / 1)%Z with (Z.of_nat m)
    by (rewrite Z.div_1_r; lia).
  rewrite Nat2Z.id.
  induction m as [|m IH]; [reflexivity|].
  rewrite seq_S at 2. rewrite rev_app_distr. cbn [rev app plus map seq].
  f_equal; [lia|].
  rewrite <- seq_shift, map_map, <- IH.
  apply map_ext. intros i. lia.
Qed.

Lemma insert_run_app (st : store) (a b : list loc) (t : BinarySearchTree) :
  insert_run st (a ++ b) t
  = match insert_run st a t with
    | Ok t' => insert_run st b t'
    | Raise e => Raise e
    end.
Proof.
  revert t. induction a as [|x a IH]; intros t; [reflexivity|].
  cbn [app insert_run]. destruct (Qeq_bool (gold (st x)) 0); [reflexivity|].
  apply IH.
Qed.

Lemma median_in_range (l : list loc) :
  l <> [] -> (length l / 2 < length l)%nat.
Proof.
  intros Hne. destruct l as [|x l]; [contradiction|].
  apply Nat.div_lt; simpl; lia.
Qed.

Lemma create_bst_run (l : list loc) (s : State) :
  l <> [] ->
  _create_bst l s = (insert_run (lands s) (insertion_order l) [], s).
Proof.
  intros Hne. pose proof (median_in_range l Hne) as Hm.
  destruct (nth_error l (length l / 2)) as [x|] eqn:Hx;
    [|apply nth_error_None in Hx; lia].
  pose proof (firstn_skipn_middle _ l Hx) as Hsplit.
  assert (Hlen : length (firstn (length l / 2) l) = (length l / 2)%nat)
    by (rewrite length_firstn; lia).
  unfold insertion_order. rewrite Hx.
  unfold _create_bst.
  replace (Z.of_nat (length l) / 2)%Z with (Z.of_nat (length l / 2))
    by (now rewrite Nat2Z.inj_div).
  rewrite (bind_ok _ _ _ _ _ (getitem_nat l _ x s Hx)).
  cbn [insert_run].
  destruct (Qeq_bool (gold (lands s x)) 0) eqn:E.
  { apply bind_raise, ratio_fault. now apply Qeq_bool_iff. }
  rewrite (bind_ok _ _ _ _ _ (ratio_run x s (Qeq_bool_neq _ _ E))).
  unfold _append_to_bst at 1. rewrite range3_down.
  rewrite insert_run_app.
  assert (Hdown := insert_loop_down l s (firstn (length l / 2) l)
                     (x :: skipn (S (length l / 2)) l)
                     (bst_setitem (ratio_of (lands s x)) x [])
                     (eq_sym Hsplit)).
  rewrite Hlen in Hdown. cbn [bst_setitem] in Hdown |- *.
  destruct (insert_run (lands s) (rev (firstn (length l / 2) l))
              [(ratio_of (lands s x), x)]) as [t1|e] eqn:E1.
  - rewrite (bind_ok _ _ _ _ _ Hdown).
    unfold _append_to_bst.
    assert (Hup := insert_loop_up l s (skipn (S (length l / 2)) l)
                     (firstn (length l / 2) l ++ [x]) t1).
    rewrite length_app, Hlen in Hup. cbn [length] in Hup.
    rewrite length_skipn in Hup.
    replace (Z.of_nat (length l / 2) + 1)%Z
      with (Z.of_nat (length l / 2 + 1)) by lia.
    assert (Hr : range3 (Z.of_nat (length l / 2 + 1)) (Z.of_nat (length l)) 1
                 = map Z.of_nat
                     (seq (length l / 2 + 1) (length l - S (length l / 2)))).
    { rewrite <- range3_up. do 2 f_equal. lia. }
    rewrite Hr. unfold bind at 1.
    rewrite Hup by (rewrite <- app_assoc; symmetry; exact Hsplit).
    destruct (insert_run (lands s) (skipn (S (length l / 2)) l) t1);
      reflexivity.
  - now rewrite (bind_raise _ _ _ _ _ Hdown).
Qed.

Lemma insert_all_cons (st : store) x items t :
  insert_all st (x :: items) t
  = insert_all st items (bst_setitem (ratio_of (st x)) x t).
Proof. reflexivity. Qed.

Lemma insert_run_ok (st : store) (items : list loc) :
  forall t,
    Forall (fun x => ~ (gold (st x) == 0)%Q) items ->
    insert_run st items t = Ok (insert_all st items t).
Proof.
  induction items as [|x items IH]; intros t Hall; [reflexivity|].
  inversion Hall as [|? ? Hx Hrest]; subst.
  rewrite insert_all_cons. cbn [insert_run].
  rewrite (Qeq_bool_false_of_neq _ _ Hx). now apply IH.
Qed.

Lemma insert_run_fault (st : store) (items : list loc) :
  forall t,
    Exists (fun x => (gold (st x) == 0)%Q) items ->
    insert_run st items t = Raise ZeroDivisionError.
Proof.
  induction items as [|x items IH]; intros t Hex; [inversion Hex|].
  cbn [insert_run]. destruct (Qeq_bool (gold (st x)) 0) eqn:E; [reflexivity|].
  inversion Hex as [? ? Hx|? ? Hrest]; subst.
  - apply Qeq_eq_bool in Hx. congruence.
  - now apply IH.
Qed.

Lemma insertion_order_perm {A} (l : list A) : Permutation (insertion_order l) l.
Proof.
  unfold insertion_order.
  destruct (nth_error l (length l / 2)) as [x|] eqn:Hx.
  - apply perm_trans
      with (firstn (length l / 2) l ++ x :: skipn (S (length l / 2)) l);
      [|rewrite (firstn_skipn_middle _ l Hx); apply Permutation_refl].
    eapply perm_trans; [|apply Permutation_middle].
    apply perm_skip, Permutation_app_tail, Permutation_sym, Permutation_rev.
  - apply nth_error_None in Hx. destruct l as [|y l]; [constructor|].
    exfalso. assert (H2 : (length (y :: l) / 2 < length (y :: l))%nat)
      by (apply Nat.div_lt; simpl; lia). lia.
Qed.

(** X15. [_create_bst] changes nothing in the state.  On the empty list it
    raises [IndexError]; on a list with a site of reward zero it raises
    [ZeroDivisionError]; otherwise it returns the container that results
    from inserting, under its ratio key, every site of the list exactly
    once: the median first, then the sites left of it from right to left,
    then the sites right of it from left to right. *)
Theorem create_bst_inserts_every_site (l : list loc) (s : State) :
  (l = [] -> _create_bst l s = (Raise IndexError, s)) /\
  (l <> [] -> Exists (fun x => (gold (lands s x) == 0)%Q) l ->
   _create_bst l s = (Raise ZeroDivisionError, s)) /\
  (l <> [] -> Forall (fun x => ~ (gold (lands s x) == 0)%Q) l ->
   _create_bst l s = (Ok (insert_all (lands s) (insertion_order l) []), s)) /\
  Permutation (insertion_order l) l.
Proof.
  split; [|split; [|split]].
  - intros ->. reflexivity.
  - intros Hne Hex. rewrite (create_bst_run l s Hne).
    rewrite insert_run_fault; [reflexivity|].
    apply Exists_exists in Hex as (x & Hin & Hx). apply Exists_exists.
    exists x. split; [|exact Hx].
    now apply (Permutation_in x (Permutation_sym (insertion_order_perm l))).
  - intros Hne Hall. rewrite (create_bst_run l s Hne).
    rewrite insert_run_ok; [reflexivity|].
    apply (Permutation_Forall (Permutation_sym (insertion_order_perm l))).
    exact Hall.
  - apply insertion_order_perm.
Qed.

(** *** What the built container holds *)

Lemma insert_all_ok (st : store) (items : list loc) :
  forall t, bst_ok t -> bst_ok (insert_all st items t).
Proof.
  induction items as [|x items IH]; intros t Hok; [exact Hok|].
  apply IH. now apply bst_setitem_ok.
Qed.

Lemma insert_all_entries (st : store) (items : list loc) :
  forall t e,
    In e (insert_all st items t) ->
    In e t \/ exists x, In x items /\ e = (ratio_of (st x), x).
Proof.
  induction items as [|x items IH]; intros t e He; [now left|].
  destruct (IH _ e He) as [Hin|(y & Hy & ->)].
  - destruct (bst_setitem_entries _ _ _ e Hin) as [->|Ht].
    + right. exists x. split; [now left | reflexivity].
    + now left.
  - right. exists y. split; [now right | reflexivity].
Qed.

Lemma insert_all_lookup_other (st : store) (items : list loc) (k : Q) :
  forall t,
    Forall (fun y => ~ (k == ratio_of (st y))%Q) items ->
    bst_getitem k (insert_all st items t) = bst_getitem k t.
Proof.
  induction items as [|y items IH]; intros t Hall; [reflexivity|].
  inversion Hall as [|? ? Hy Hrest]; subst.
  rewrite insert_all_cons.
  rewrite (IH _ Hrest). now apply bst_getitem_setitem_other.
Qed.

Lemma insert_all_lookup (st : store) (items : list loc) :
  forall t x,
    ratios_distinct st items -> In x items ->
    bst_getitem (ratio_of (st x)) (insert_all st items t) = Some x.
Proof.
  induction items as [|y items IH]; intros t x [Hnd Hinj] Hin; [destruct Hin|].
  inversion Hnd as [|? ? Hnotin Hnd']; subst.
  assert (Hd' : ratios_distinct st items).
  { split; [exact Hnd'|]. intros a b Ha Hb. apply Hinj; now right. }
  rewrite insert_all_cons.
  destruct Hin as [->|Hin].
  - rewrite insert_all_lookup_other; [apply bst_getitem_setitem_same|].
    rewrite Forall_forall. intros z Hz Hc.
    apply Hnotin. rewrite (Hinj x z); [exact Hz | now left | now right | exact Hc].
  - now apply IH.
Qed.

Lemma bst_setitem_fresh (k : Q) (v : loc) (t : BinarySearchTree) :
  bst_getitem k t = None -> Permutation (bst_setitem k v t) ((k, v) :: t).
Proof.
  induction t as [|[k0 v0] t IH]; simpl; intros Hn; [apply Permutation_refl|].
  destruct (Qeq_bool k k0) eqn:E; [discriminate|].
  destruct (k ?= k0)%Q eqn:C.
  - apply Qeq_alt, Qeq_eq_bool in C. congruence.
  - apply Permutation_refl.
  - eapply perm_trans; [apply perm_skip, IH, Hn | apply perm_swap].
Qed.

Lemma insert_all_perm (st : store) (items : list loc) :
  forall t,
    ratios_distinct st items ->
    Forall (fun x => bst_getitem (ratio_of (st x)) t = None) items ->
    Permutation (insert_all st items t)
                (map (fun x => (ratio_of (st x), x)) items ++ t).
Proof.
  induction items as [|y items IH]; intros t [Hnd Hinj] Hfree;
    [apply Permutation_refl|].
  inversion Hnd as [|? ? Hnotin Hnd']; subst.
  inversion Hfree as [|? ? Hy Hrest]; subst.
  assert (Hd' : ratios_distinct st items).
  { split; [exact Hnd'|]. intros a b Ha Hb. apply Hinj; now right. }
  rewrite insert_all_cons. cbn [map app].
  eapply perm_trans.
  - apply IH; [exact Hd'|].
    rewrite Forall_forall in *. intros z Hz.
    rewrite bst_getitem_setitem_other; [now apply Hrest|].
    intros Hc. apply Hnotin.
    rewrite (Hinj y z); [exact Hz | now left | now right | now symmetry].
  - eapply perm_trans;
      [apply Permutation_app_head, (bst_setitem_fresh _ _ _ Hy)|].
    apply Permutation_sym, Permutation_middle.
Qed.

(** *** The constructor *)

Lemma insert_by_key_perm (x : Q * loc) (l : list (Q * loc)) :
  Permutation (insert_by_key x l) (x :: l).
Proof.
  induction l as [|y l IH]; simpl; [apply Permutation_refl|].
  destruct (Qle_bool (fst x) (fst y)); [apply Permutation_refl|].
  eapply perm_trans; [apply perm_skip, IH | apply perm_swap].
Qed.

Lemma sort_by_key_perm (l : list (Q * loc)) :
  Permutation (fold_right insert_by_key [] l) l.
Proof.
  induction l as [|x l IH]; simpl; [constructor|].
  eapply perm_trans; [apply insert_by_key_perm | now apply perm_skip].
Qed.

Lemma keying_run (l : list loc) (s : State) :
  forall acc,
    for_each l acc (fun acc x => k <- ratio x ;; ret (acc ++ [(k, x)])) s
    = if forallb (fun x => negb (Qeq_bool (gold (lands s x)) 0)) l
      then (Ok (acc ++ map (fun x => (ratio_of (lands s x), x)) l), s)
      else (Raise ZeroDivisionError, s).
Proof.
  induction l as [|x l IH]; intros acc; simpl.
  - now rewrite app_nil_r.
  - unfold bind at 1. unfold bind at 1.
    destruct (Qeq_bool (gold (lands s x)) 0) eqn:E; simpl.
    + rewrite ratio_fault; [reflexivity | now apply Qeq_bool_iff].
    + rewrite (ratio_run x s (Qeq_bool_neq _ _ E)). unfold ret at 1.
      rewrite IH, <- app_assoc. reflexivity.
Qed.

Lemma mergesort_run (l : list loc) (s : State) :
  (Forall (fun x => ~ (gold (lands s x) == 0)%Q) l ->
   exists l', mergesort l ratio s = (Ok l', s) /\ Permutation l' l) /\
  (Exists (fun x => (gold (lands s x) == 0)%Q) l ->
   mergesort l ratio s = (Raise ZeroDivisionError, s)).
Proof.
  unfold mergesort, bind. rewrite keying_run. split.
  - intros Hall.
    assert (E : forallb (fun x => negb (Qeq_bool (gold (lands s x)) 0)) l = true).
    { apply forallb_forall. intros x Hx. rewrite Forall_forall in Hall.
      now rewrite (Qeq_bool_false_of_neq _ _ (Hall x Hx)). }
    rewrite E. eexists. split; [reflexivity|]. cbn [app].
    eapply perm_trans; [apply Permutation_map, sort_by_key_perm|].
    rewrite map_map. cbn [snd]. rewrite map_id. apply Permutation_refl.
  - intros Hex.
    assert (E : forallb (fun x => negb (Qeq_bool (gold (lands s x)) 0)) l = false).
    { destruct (forallb _ l) eqn:F; [|reflexivity].
      apply Exists_exists in Hex as (x & Hin & Hx).
      rewrite forallb_forall in F. specialize (F x Hin).
      now rewrite (Qeq_eq_bool _ _ Hx) in F. }
    now rewrite E.
Qed.

(** X16. The constructor.  It raises [IndexError] for an empty list and
    [ZeroDivisionError] for a list with a site of reward zero, changing
    nothing.  Otherwise it stores the budget, leaves every site as it was
    and builds a container with ascending keys in which every entry is a
    site of the list under its ratio; if the ratios tell the sites apart,
    the container holds each site exactly once, and a lookup at a site's
    ratio returns that site. *)
Theorem init_builds_navigator (sites0 : list loc) (adventurers : Z) (s : State) :
  (sites0 = [] -> init sites0 adventurers s = (Raise IndexError, s)) /\
  (sites0 <> [] -> Exists (fun x => (gold (lands s x) == 0)%Q) sites0 ->
   init sites0 adventurers s = (Raise ZeroDivisionError, s)) /\
  (sites0 <> [] -> Forall (fun x => ~ (gold (lands s x) == 0)%Q) sites0 ->
   exists s',
     init sites0 adventurers s = (Ok tt, s') /\
     lands s' = lands s /\
     total_adventurers s' = adventurers /\
     bst_ok (sites s') /\
     Forall (fun e => fst e = ratio_of (lands s (snd e)) /\ In (snd e) sites0)
            (sites s') /\
     (ratios_distinct (lands s) sites0 ->
      Permutation (sites s') (map (fun x => (ratio_of (lands s x), x)) sites0) /\
      forall x, In x sites0 ->
                bst_getitem (ratio_of (lands s x)) (sites s') = Some x)).
Proof.
  split; [|split].
  - intros ->. reflexivity.
  - intros Hne Hex. unfold init.
    now rewrite (bind_raise _ _ _ _ _ (proj2 (mergesort_run sites0 s) Hex)).
  - intros Hne Hall.
    destruct (proj1 (mergesort_run sites0 s) Hall) as (l' & Hsort & Hperm).
    assert (Hne' : l' <> [])
      by (intros ->; apply Permutation_nil in Hperm; contradiction).
    assert (Hall' : Forall (fun x => ~ (gold (lands s x) == 0)%Q) l')
      by (apply (Permutation_Forall (Permutation_sym Hperm)); exact Hall).
    pose proof (create_bst_run l' s Hne') as Hrun.
    rewrite insert_run_ok in Hrun
      by (apply (Permutation_Forall
                   (Permutation_sym (insertion_order_perm l'))); exact Hall').
    assert (Hord : Permutation (insertion_order l') sites0)
      by (eapply perm_trans; [apply insertion_order_perm | exact Hperm]).
    eexists. split.
    { unfold init. rewrite (bind_ok _ _ _ _ _ Hsort), (bind_ok _ _ _ _ _ Hrun).
      reflexivity. }
    cbn [lands sites total_adventurers].
    split; [reflexivity|]. split; [reflexivity|].
    split; [apply insert_all_ok; constructor|].
    split.
    + rewrite Forall_forall. intros e He.
      destruct (insert_all_entries _ _ _ e He) as [[]|(x & Hx & ->)].
      split; [reflexivity|]. cbn [snd]. now apply (Permutation_in x Hord).
    + intros [Hnd Hinj].
      assert (Hd : ratios_distinct (lands s) (insertion_order l')).
      { split; [apply (Permutation_NoDup (Permutation_sym Hord)); exact Hnd|].
        intros a b Ha Hb. apply Hinj; now apply (Permutation_in _ Hord). }
      split.
      * eapply perm_trans.
        -- apply insert_all_perm; [exact Hd|].
           rewrite Forall_forall. intros x _. reflexivity.
        -- rewrite app_nil_r. now apply Permutation_map.
      * intros x Hx. apply insert_all_lookup; [exact Hd|].
        now apply (Permutation_in x (Permutation_sym Hord)).
Qed.

(** *** The scan earns the most *)

Section Optimal.

Variable st : store.















End Optimal.



(** *** The properties above on the documented trip *)

Lemma update_site_fails_early_witness :
  let s0 := mkState (upd Scenario.trip_store Scenario.A (mkLand "A" 0 100))
              [] 0 in
  let s1 := mkState Scenario.trip_store [] 0 in
  update_site Scenario.A 350 450 s0 = (Raise ZeroDivisionError, s0) /\
  update_site Scenario.A 350 450 s1 = (Raise KeyError, s1).
Proof.
  intros s0 s1. split.
  - apply (proj1 (update_site_fails_early s0 Scenario.A 350 450)).
    vm_compute. reflexivity.
  - apply (proj2 (update_site_fails_early s1 Scenario.A 350 450)).
    + vm_compute. discriminate.
    + reflexivity.
Defined.

Lemma update_site_zero_reward_loses_site_witness :
  exists s',
    update_site Scenario.B 0 450 Scenario.trip_start
    = (Raise ZeroDivisionError, s') /\
    bst_getitem (170 # 300) (sites s') = None.
Proof.
  destruct (update_site_zero_reward_loses_site Scenario.trip_start
              Scenario.B 0 450) as (s' & Hrun & _ & Hget & _).
  - vm_compute. repeat constructor.
  - vm_compute. discriminate.
  - vm_compute. reflexivity.
  - reflexivity.
  - exists s'. split; [exact Hrun | exact Hget].
Defined.


Lemma update_site_round_trip_witness :
  exists s1 s2,
    update_site Scenario.B 350 450 Scenario.trip_start = (Ok tt, s1) /\
    update_site Scenario.B 300 170 s1 = (Ok tt, s2) /\
    total_adventurers s2 = 300%Z.
Proof.
  destruct (update_site_round_trip Scenario.trip_start Scenario.B 350 450)
    as (s1 & s2 & H1 & H2 & _ & _ & Hb).
  - vm_compute. repeat constructor.
  - vm_compute. discriminate.
  - vm_compute. reflexivity.
  - vm_compute. discriminate.
  - left. vm_compute. reflexivity.
  - exists s1, s2. split; [exact H1|]. split; [exact H2 | exact Hb].
Defined.

Lemma select_sites_extremes_witness :
  select_sites (with_budget Scenario.trip_start 60)
  = (Ok [(Scenario.A, 60%Z)], with_budget Scenario.trip_start 60) /\
  select_sites (with_budget Scenario.trip_start 500)
  = (Ok [(Scenario.A, 100%Z); (Scenario.C, 50%Z); (Scenario.B, 170%Z)],
     with_budget Scenario.trip_start 500).
Proof.
  split.
  - exact (proj1 (select_sites_extremes (with_budget Scenario.trip_start 60))
             (100 # 500)%Q Scenario.A
             [((50 # 100)%Q, Scenario.C); ((170 # 300)%Q, Scenario.B)]
             ltac:(vm_compute; reflexivity)
             ltac:(vm_compute; split; [reflexivity | discriminate])).
  - exact (proj2 (select_sites_extremes (with_budget Scenario.trip_start 500))
             ltac:(vm_compute; repeat constructor; discriminate)
             ltac:(vm_compute; discriminate)).
Defined.

Lemma probing_is_pointwise_witness :
  exists r s',
    select_sites_from_adventure_numbers [130; 500; 230]%Z Scenario.trip_start
    = (Ok r, s') /\
    r = map (fun b => path_value (lands Scenario.trip_start)
                        (path_at Scenario.trip_start b))
          [130; 500; 230]%Z.
Proof.
  do 2 eexists. split; [vm_compute; reflexivity|].
  refine (probing_is_pointwise [130; 500; 230]%Z Scenario.trip_start _ _ _).
  vm_compute; reflexivity.
Defined.

Lemma create_bst_inserts_every_site_witness :
  let s := mkState Scenario.trip_store [] 0 in
  let s0 := mkState (upd Scenario.trip_store Scenario.C (mkLand "C" 0 50))
              [] 0 in
  _create_bst [] s = (Raise IndexError, s) /\
  _create_bst [Scenario.A; Scenario.C; Scenario.B] s0
  = (Raise ZeroDivisionError, s0) /\
  _create_bst [Scenario.A; Scenario.C; Scenario.B] s
  = (Ok [((100 # 500)%Q, Scenario.A); ((50 # 100)%Q, Scenario.C);
         ((170 # 300)%Q, Scenario.B)], s).
Proof.
  intros s s0. split; [|split].
  - apply (proj1 (create_bst_inserts_every_site [] s)). reflexivity.
  - apply (proj1 (proj2 (create_bst_inserts_every_site
                           [Scenario.A; Scenario.C; Scenario.B] s0))).
    + discriminate.
    + apply Exists_cons_tl, Exists_cons_hd. vm_compute. reflexivity.
  - exact (proj1 (proj2 (proj2 (create_bst_inserts_every_site
                                  [Scenario.A; Scenario.C; Scenario.B] s)))
             ltac:(discriminate)
             ltac:(repeat constructor; vm_compute; discriminate)).
Defined.

Lemma init_builds_navigator_witness :
  let s := mkState Scenario.trip_store [] 0 in
  exists s',
    init [Scenario.A; Scenario.B; Scenario.C] 300 s = (Ok tt, s') /\
    bst_ok (sites s') /\
    bst_getitem (170 # 300) (sites s') = Some Scenario.B.
Proof.
  intros s.
  destruct (proj2 (proj2 (init_builds_navigator
                            [Scenario.A; Scenario.B; Scenario.C] 300 s)))
    as (s' & Hrun & _ & _ & Hok & _ & Hd).
  - discriminate.
  - repeat constructor; vm_compute; discriminate.
  - destruct Hd as [_ Hget].
    + split.
      * repeat constructor; cbn; intuition discriminate.
      * intros x y Hx Hy. simpl in Hx, Hy.
        destruct Hx as [<-|[<-|[<-|[]]]]; destruct Hy as [<-|[<-|[<-|[]]]];
          intros Hq; try reflexivity; exfalso; vm_compute in Hq; discriminate.
    + exists s'. split; [exact Hrun|]. split; [exact Hok|].
      apply (Hget Scenario.B). simpl. auto.
Defined.


End Mode1More.
